(** * k8s-inspector: the master health checker of [master_health.py]

    A shallow embedding of the [MasterHealth] class: the two paginated
    fetchers ([_get_paginated_pods], [_get_paginated_response]) and the
    probes [check_master_nodes], [check_etcd_health],
    [check_api_server_health], [check_critical_operators],
    [check_control_plane_pods] and [check_certificates].

    Modelling conventions.
    - The cluster behind [dyn_client] / [k8s_client] is an abstract,
      stateful server: every API call takes the server state and returns
      either an exception or a response, together with the next state.
    - The module-level [console] and [time.sleep] are effects recorded in
      the [World]: the lines printed and the delays slept, in order. A
      print of interpolated text goes through the console's markup parser
      and raises [MarkupError] when the parser refuses the text.
    - Python exceptions are results ([Exc]); a [while] loop whose exit
      depends on the server runs on fuel and yields [Diverge] when the fuel
      is used up.
    - A field the code reads behind a [hasattr] test is an [Attr]: it is
      missing, or holds [None], or holds a value. The client classes
      declare every field, so an unset field of an API object holds
      [None]; reading through it raises. Every API call returns a fresh
      object. *)

From Stdlib Require Import String Ascii List Bool Arith Lia DecimalString.
Import ListNotations.
Open Scope string_scope.
Open Scope list_scope.

(* ================================================================= *)
(** ** Python values *)

(** The two exception classes the source tells apart
    ([kubernetes.client.rest.ApiException] and any other [Exception]). *)
Inductive Exn : Type :=
| ApiException (msg : string)
| PyException (msg : string).

(** [str(e)] / [f"{e}"]. *)
Definition str (e : Exn) : string :=
  match e with
  | ApiException msg => msg
  | PyException msg => msg
  end.

(** [f"{n}"] for a non-negative integer. *)
Definition str_nat (n : nat) : string := NilEmpty.string_of_uint (Nat.to_uint n).

(** [f"{x}"] for a value that may be [None]. *)
Definition str_opt (o : option Exn) : string :=
  match o with
  | Some e => str e
  | None => "None"
  end.

(** Truth value of a continuation token: [None] and [''] are falsy. *)
Definition truthy (tok : option string) : bool :=
  match tok with
  | Some s => negb (s =? "")
  | None => false
  end.

(** [needle in haystack] on strings. *)
Fixpoint contains (needle haystack : string) : bool :=
  prefix needle haystack ||
  match haystack with
  | EmptyString => false
  | String _ rest => contains needle rest
  end.

(** [x in xs] for a list of strings. *)
Definition str_in (x : string) (xs : list string) : bool :=
  existsb (String.eqb x) xs.

Definition is_empty {A : Type} (l : list A) : bool :=
  match l with
  | [] => true
  | _ :: _ => false
  end.

(** An attribute read behind [hasattr(obj, 'attr')]: [Missing] when
    [hasattr] is false, [PyNone] when the attribute is there and holds
    [None], [Value] when it holds a value. *)
Inductive Attr (A : Type) : Type :=
| Missing
| PyNone
| Value (a : A).
Arguments Missing {A}.
Arguments PyNone {A}.
Arguments Value {A} _.

(** [TypeError] of [for x in None]. *)
Definition none_not_iterable : Exn :=
  PyException "'NoneType' object is not iterable".

(** [AttributeError] of [None.attr]. *)
Definition none_has_no_attribute (attr : string) : Exn :=
  PyException ("'NoneType' object has no attribute '" ++ attr ++ "'").

(** A step of a loop body that may raise. *)
Definition Raises (A : Type) : Type := (Exn + A)%type.

(** [for x in xs: out.append(f(x))], stopping at the first exception. *)
Fixpoint map_raises {A B : Type} (f : A -> Raises B) (xs : list A)
    : Raises (list B) :=
  match xs with
  | [] => inr []
  | x :: rest =>
      match f x with
      | inl e => inl e
      | inr b =>
          match map_raises f rest with
          | inl e => inl e
          | inr bs => inr (b :: bs)
          end
      end
  end.

(* ================================================================= *)
(** ** Status records *)

(** The four literals stored under the ['status'] key. *)
Inductive StatusLevel : Type := Healthy | Warning | Unhealthy | Error.

(** The dict every list-valued probe appends to its results. The keys
    ['namespace'] and ['warnings'] exist only in some probes. *)
Record EntityStatus : Type := mkEntity {
  name : string;
  namespace : option string;
  status : StatusLevel;
  issues : list string;
  warnings : option (list string)
}.

(** The dict [check_etcd_health] returns: ['status'] plus one of
    ['error'], ['issues'], ['message']. *)
Record AggregateStatus : Type := mkAggregate {
  agg_status : StatusLevel;
  agg_error : option string;
  agg_issues : option (list string);
  agg_message : option string
}.

(* ================================================================= *)
(** ** API objects *)

Record Condition : Type := mkCondition {
  cond_type : string;
  cond_status : string;
  cond_message : string
}.

Record Node : Type := mkNode {
  node_name : string;
  node_conditions : list Condition
}.

(** [op_conditions] is [operator.status.conditions] behind
    [hasattr(operator.status, 'conditions')]: [Missing] when the operator
    has no [status] to ask, [PyNone] when the status has no conditions
    (the dynamic client answers [None] for a key that is not there). *)
Record ClusterOperator : Type := mkOperator {
  op_name : string;
  op_conditions : Attr (list Condition)
}.

Record ContainerStatus : Type := mkContainer {
  container_name : string;
  ready : bool
}.

(** [container_statuses] behind [hasattr(pod.status,
    'container_statuses')]. *)
Record PodStatus : Type := mkPodStatus {
  phase : string;
  container_statuses : Attr (list ContainerStatus)
}.

(** [pod_status] is [pod.status] behind [hasattr(pod, 'status')]. The
    pods of [CoreV1Api] are [V1Pod] objects, which always have the
    attribute: an unset status is [PyNone] there. *)
Record Pod : Type := mkPod {
  pod_name : string;
  pod_status : Attr PodStatus
}.

(** One page of a list call: [.items] and [.metadata._continue]. *)
Record Page (Item : Type) : Type := mkPage {
  items : list Item;
  metadata_continue : option string
}.
Arguments mkPage {Item} _ _.
Arguments items {Item} _.
Arguments metadata_continue {Item} _.

(** Keyword arguments of [list_namespaced_pod]. [_continue = None] when
    the keyword is not passed. *)
Record PodListRequest : Type := mkPodListRequest {
  req_namespace : string;
  req_label_selector : option string;
  req_limit : nat;
  req_continue : option string
}.

(** The [**kwargs] dict of [_get_paginated_response], restricted to the
    two keys the function writes; [None] means the key is not set. *)
Record Kwargs : Type := mkKwargs {
  kw_limit : option nat;
  kw_continue : option string
}.

(* ================================================================= *)
(** ** Effects *)

(** *** The console's markup

    [console.print] reads its text as rich markup, and a closing tag that
    matches no open tag makes it raise [MarkupError].
    [rich_markup_error] is that check. A tag is a bracket followed by a
    lower-case letter or one of # / @ and then the shortest text without
    an opening bracket up to a closing bracket; an odd number of
    backslashes before the bracket escapes the tag; the name of a tag is
    the part before the equals sign; style names are compared as written.
    The result is the text of the [MarkupError], or [None] when the text
    prints. *)

Definition tag_start (c : ascii) : bool :=
  let n := nat_of_ascii c in
  ((97 <=? n) && (n <=? 122))%nat || (c =? "#")%char || (c =? "/")%char
  || (c =? "@")%char.

Inductive Scan : Type :=
| Outside
| Bracket (position : nat) (escaped : bool)
| Inside (position : nat) (escaped : bool) (tag_text : string).

Fixpoint tag_name (tag_text : string) : string :=
  match tag_text with
  | EmptyString => EmptyString
  | String c rest => if (c =? "=")%char then EmptyString else String c (tag_name rest)
  end.

(** [pop_style]: the nearest open tag of that name leaves the stack. *)
Fixpoint pop_style (style_name : string) (style_stack : list string)
    : option (list string) :=
  match style_stack with
  | [] => None
  | open_tag :: rest =>
      if open_tag =? style_name then Some rest
      else option_map (cons open_tag) (pop_style style_name rest)
  end.

Definition markup_tag (position : nat) (tag_text : string)
    (style_stack : list string) : string + list string :=
  let tag := tag_name tag_text in
  if prefix "/" tag then
    let style_name := substring 1 (String.length tag - 1) tag in
    if style_name =? "" then
      match style_stack with
      | [] => inl ("closing tag '[/]' at position " ++ str_nat position
                     ++ " has nothing to close")%string
      | _ :: rest => inr rest
      end
    else
      match pop_style style_name style_stack with
      | Some rest => inr rest
      | None => inl ("closing tag '[" ++ tag_text ++ "]' at position "
                       ++ str_nat position ++ " doesn't match any open tag")%string
      end
  else inr (tag :: style_stack).

Fixpoint markup_scan (markup : string) (position backslashes : nat)
    (state : Scan) (style_stack : list string) : option string :=
  match markup with
  | EmptyString => None
  | String c rest =>
      let next :=
        markup_scan rest (S position)
          (if (c =? "\")%char then S backslashes else 0) in
      if (c =? "[")%char
      then next (Bracket position (Nat.odd backslashes)) style_stack
      else
        match state with
        | Outside => next Outside style_stack
        | Bracket p escaped =>
            if tag_start c
            then next (Inside p escaped (String c EmptyString)) style_stack
            else next Outside style_stack
        | Inside p escaped tag_text =>
            if (c =? "]")%char then
              if escaped then next Outside style_stack
              else
                match markup_tag p tag_text style_stack with
                | inl err => Some err
                | inr style_stack' => next Outside style_stack'
                end
            else next (Inside p escaped (tag_text ++ String c EmptyString))
                   style_stack
        end
  end.

Definition rich_markup_error (markup : string) : option string :=
  markup_scan markup 0 0 Outside [].

(** The program's environment: the server behind the clients, the lines
    printed and the delays slept so far, and the console's markup check
    ([markup_error w text] is the text of the [MarkupError] that printing
    [text] raises, if it raises). *)
Record World (St : Type) : Type := Build_World {
  server : St;
  console : list string;
  slept : list nat;
  markup_error : string -> option string
}.
Arguments Build_World {St} _ _ _ _.
Arguments server {St} _.
Arguments console {St} _.
Arguments slept {St} _.
Arguments markup_error {St} _ _.

(** A world whose console checks markup as [rich_markup_error] does. *)
Definition mkWorld {St : Type} (s : St) (printed : list string)
    (delays : list nat) : World St :=
  Build_World s printed delays rich_markup_error.

Inductive Res (A : Type) : Type :=
| Val (a : A)
| Exc (e : Exn)
| Diverge.
Arguments Val {A} _.
Arguments Exc {A} _.
Arguments Diverge {A}.

Definition M (St A : Type) : Type := World St -> Res A * World St.

Definition log_console {St} (msg : string) (w : World St) : World St :=
  Build_World (server w) (console w ++ [msg]) (slept w) (markup_error w).

Definition log_sleep {St} (secs : nat) (w : World St) : World St :=
  Build_World (server w) (console w) (slept w ++ [secs]) (markup_error w).

Definition with_server {St} (s : St) (w : World St) : World St :=
  Build_World s (console w) (slept w) (markup_error w).

Section Monad.
Context {St : Type}.

Definition ret {A} (a : A) : M St A := fun w => (Val a, w).

Definition bind {A B} (m : M St A) (k : A -> M St B) : M St B :=
  fun w =>
    match m w with
    | (Val a, w') => k a w'
    | (Exc e, w') => (Exc e, w')
    | (Diverge, w') => (Diverge, w')
    end.

Definition diverge {A} : M St A := fun w => (Diverge, w).

(** [try: m  except Exception as e: h e]. *)
Definition try_except {A} (m : M St A) (h : Exn -> M St A) : M St A :=
  fun w =>
    match m w with
    | (Exc e, w') => h e w'
    | r => r
    end.

(** [raise e]. *)
Definition raise_exn {A} (e : Exn) : M St A := fun w => (Exc e, w).

(** A loop without effects that may raise, run in place. *)
Definition lift_raises {A} (r : Raises A) : M St A :=
  match r with
  | inl e => raise_exn e
  | inr a => ret a
  end.

(** [console.print("...")] of a literal whose tags are balanced: the
    line is printed. *)
Definition console_print (msg : string) : M St unit :=
  fun w => (Val tt, log_console msg w).

(** [console.print(f"...{e}...")]: the text is checked as markup first,
    and a refused text raises [MarkupError] with nothing printed. *)
Definition console_print_markup (msg : string) : M St unit :=
  fun w =>
    match markup_error w msg with
    | Some err => (Exc (PyException err), w)
    | None => (Val tt, log_console msg w)
    end.

(** A call to the remote API. *)
Definition call {A} (f : St -> (Exn + A) * St) : M St A :=
  fun w =>
    match f (server w) with
    | (inl e, s) => (Exc e, with_server s w)
    | (inr a, s) => (Val a, with_server s w)
    end.
End Monad.

Declare Scope py_scope.
Delimit Scope py_scope with py.
Notation "x <- m ;; k" := (bind m (fun x => k))
  (at level 100, m at next level, right associativity) : py_scope.
Notation "m ;; k" := (bind m (fun _ => k))
  (at level 100, right associativity) : py_scope.
Open Scope py_scope.

(** The cluster query capability the checker is constructed with. *)
Class Cluster (St : Type) : Type := {
  (** [resources.get(api_version='v1', kind='Node').get(label_selector=..)],
      returning [.items]. *)
  nodes_get : string -> St -> (Exn + list Node) * St;
  (** [resources.get(kind='ClusterOperator').get(field_selector=..)],
      returning [.items]; the empty list also stands for the responses the
      etcd probe treats alike (falsy, or without items). *)
  operators_get : option string -> St -> (Exn + list ClusterOperator) * St;
  (** [CoreV1Api.list_namespaced_pod]; [None] is a falsy response. *)
  list_namespaced_pod :
    PodListRequest -> St -> (Exn + option (Page Pod)) * St
}.

(* ================================================================= *)
(** ** The paginated fetchers *)

Section PodFetcher.
Context {St : Type} `{Cluster St}.

(** The [while pod_list.metadata._continue:] loop of
    [_get_paginated_pods]; [fuel] bounds the number of iterations. *)
Fixpoint pods_more_pages (fuel : nat) (namespace : string)
    (label_selector : option string) (pod_list : Page Pod)
    (pods : list Pod) : M St (list Pod) :=
  if truthy (metadata_continue pod_list) then
    match fuel with
    | 0 => diverge
    | S fuel' =>
        pod_list' <- call (list_namespaced_pod
                       (mkPodListRequest namespace label_selector 100
                          (metadata_continue pod_list))) ;;
        match pod_list' with
        | Some pl =>
            if negb (is_empty (items pl))
            then pods_more_pages fuel' namespace label_selector pl
                   (pods ++ items pl)
            else ret pods
        | None => ret pods
        end
    end
  else ret pods.

(** The [try] block of [_get_paginated_pods]. *)
Definition get_paginated_pods_body (fuel : nat) (namespace : string)
    (label_selector : option string) : M St (list Pod) :=
  pod_list <- call (list_namespaced_pod
                (mkPodListRequest namespace label_selector 100 None)) ;;
  match pod_list with
  | None => ret []
  | Some pl => pods_more_pages fuel namespace label_selector pl ([] ++ items pl)
  end.

(** [MasterHealth._get_paginated_pods]. *)
Definition _get_paginated_pods (fuel : nat) (namespace : string)
    (label_selector : option string) : M St (list Pod) :=
  try_except (get_paginated_pods_body fuel namespace label_selector)
    (fun e =>
       match e with
       | ApiException _ =>
           console_print_markup
             ("[red]Error getting pods: " ++ str e ++ "[/red]") ;;
           ret []
       | PyException _ =>
           console_print_markup
             ("[red]Unexpected error getting pods: " ++ str e ++ "[/red]") ;;
           ret []
       end).
End PodFetcher.

Section GenericFetcher.
Context {St Item : Type}.
(** The [api_call] argument, already applied to the caller's [*args]. A
    response without [.items] is the exception its access raises. *)
Variable api_call : Kwargs -> St -> (Exn + Page Item) * St.

Definition max_retries : nat := 3.

(** The result of running part of [_get_paginated_response]: the outcome,
    the [kwargs] dict as mutated so far, and the world. *)
Definition Frame (A : Type) : Type := Res A * Kwargs * World St.

(** The inner [while response.metadata._continue:] loop. *)
Fixpoint response_more_pages (fuel : nat) (kwargs : Kwargs)
    (response : Page Item) (items_ : list Item) (w : World St)
    : Frame (list Item) :=
  if truthy (metadata_continue response) then
    match fuel with
    | 0 => (Diverge, kwargs, w)
    | S fuel' =>
        let kwargs := mkKwargs (kw_limit kwargs) (metadata_continue response) in
        match api_call kwargs (server w) with
        | (inl e, s) => (Exc e, kwargs, with_server s w)
        | (inr response', s) =>
            response_more_pages fuel' kwargs response'
              (items_ ++ items response') (with_server s w)
        end
    end
  else (Val items_, kwargs, w).

(** The [try] block: one attempt. *)
Definition response_attempt (fuel : nat) (kwargs : Kwargs) (w : World St)
    : Frame (list Item) :=
  let kwargs := mkKwargs (Some 50) (kw_continue kwargs) in
  match api_call kwargs (server w) with
  | (inl e, s) => (Exc e, kwargs, with_server s w)
  | (inr response, s) =>
      response_more_pages fuel kwargs response (items response)
        (with_server s w)
  end.

(** The [while retry_count < max_retries:] loop. [budget] is only the
    termination measure; the loop test is the source's. The print of the
    [except] block raises out of the function when the console refuses
    the line. *)
Fixpoint retry_loop (budget fuel retry_count : nat) (last_error : option Exn)
    (kwargs : Kwargs) (w : World St) : Frame (list Item) :=
  if (retry_count <? max_retries)%nat then
    match budget with
    | 0 => (Diverge, kwargs, w)
    | S budget' =>
        match response_attempt fuel kwargs w with
        | (Val items_, kwargs, w) => (Val items_, kwargs, w)
        | (Diverge, kwargs, w) => (Diverge, kwargs, w)
        | (Exc e, kwargs, w) =>
            let msg :=
              ("[yellow]Warning: API call failed, attempt "
                 ++ str_nat (retry_count + 1) ++ " of " ++ str_nat max_retries
                 ++ "... (" ++ str e ++ ")[/yellow]")%string in
            match markup_error w msg with
            | Some err => (Exc (PyException err), kwargs, w)
            | None =>
                let w := log_console msg w in
                let retry_count := retry_count + 1 in
                let last_error := Some e in
                let w := if (retry_count <? max_retries)%nat
                         then log_sleep 1 w else w in
                retry_loop budget' fuel retry_count last_error kwargs w
            end
        end
    end
  else
    (Exc (PyException ("Failed after " ++ str_nat max_retries
                         ++ " attempts. Last error: " ++ str_opt last_error)),
     kwargs, w).

(** [MasterHealth._get_paginated_response]. *)
Definition _get_paginated_response (fuel : nat) (kwargs : Kwargs)
    (w : World St) : Res (list Item) * World St :=
  let '(r, _, w') := retry_loop max_retries fuel 0 None kwargs w in
  (r, w').
End GenericFetcher.

(* ================================================================= *)
(** ** The probes *)

(** [list.append] on the ['warnings'] value of a status dict. *)
Definition append_warning (ws : option (list string)) (msg : string)
    : option (list string) :=
  match ws with
  | Some l => Some (l ++ [msg])
  | None => None
  end.

(** Body of [for condition in node.status.conditions:]. *)
Definition node_condition (node_status : EntityStatus) (condition : Condition)
    : EntityStatus :=
  if (cond_type condition =? "Ready") && negb (cond_status condition =? "True")
  then mkEntity (name node_status) (namespace node_status) Unhealthy
         (issues node_status ++ [("Node not ready: " ++ cond_message condition)%string])
         (warnings node_status)
  else if str_in (cond_type condition)
            ["DiskPressure"; "MemoryPressure"; "PIDPressure"]
          && (cond_status condition =? "True")
  then mkEntity (name node_status) (namespace node_status) Warning
         (issues node_status)
         (append_warning (warnings node_status)
            (cond_type condition ++ ": " ++ cond_message condition))
  else node_status.

(** The [node_status] dict appended for one node. *)
Definition master_node_status (node : Node) : EntityStatus :=
  fold_left node_condition (node_conditions node)
    (mkEntity (node_name node) None Healthy [] (Some [])).

(** Body of [for condition in operator.status.conditions:]. *)
Definition operator_condition (operator_status : EntityStatus)
    (condition : Condition) : EntityStatus :=
  if (cond_type condition =? "Degraded") && (cond_status condition =? "True")
  then mkEntity (name operator_status) (namespace operator_status) Unhealthy
         (issues operator_status ++ [cond_message condition])
         (warnings operator_status)
  else if (cond_type condition =? "Progressing")
          && (cond_status condition =? "True")
  then mkEntity (name operator_status) (namespace operator_status) Warning
         (issues operator_status
            ++ [("Operator is progressing: " ++ cond_message condition)%string])
         (warnings operator_status)
  else if (cond_type condition =? "Available")
          && negb (cond_status condition =? "True")
  then mkEntity (name operator_status) (namespace operator_status) Unhealthy
         (issues operator_status
            ++ [("Operator not available: " ++ cond_message condition)%string])
         (warnings operator_status)
  else operator_status.

(** One iteration of [for operator in operator_list.items:]: the
    [operator_status] dict appended, or the exception of the condition
    loop. *)
Definition critical_operator_status (operator : ClusterOperator)
    : Raises EntityStatus :=
  let operator_status := mkEntity (op_name operator) None Healthy [] None in
  match op_conditions operator with
  | Missing => inr operator_status
  | PyNone => inl none_not_iterable
  | Value conditions => inr (fold_left operator_condition conditions operator_status)
  end.

(** The condition loop of [check_etcd_health]: the dict returned from
    inside the loop, or [None] when the loop runs to its end. *)
Fixpoint etcd_operator_conditions (conditions : list Condition)
    : option AggregateStatus :=
  match conditions with
  | [] => None
  | condition :: rest =>
      if (cond_type condition =? "Degraded") && (cond_status condition =? "True")
      then Some (mkAggregate Unhealthy None (Some [cond_message condition]) None)
      else if (cond_type condition =? "Available")
              && negb (cond_status condition =? "True")
      then Some (mkAggregate Unhealthy None
                   (Some [("etcd operator not available: "
                             ++ cond_message condition)%string]) None)
      else etcd_operator_conditions rest
  end.

(** What one iteration of [for pod in etcd_pods:] appends to
    [unhealthy_pods], or the exception it raises. *)
Definition etcd_pod_issues (pod : Pod) : Raises (list string) :=
  match pod_status pod with
  | Missing => inr [(pod_name pod ++ ": Unable to get pod status")%string]
  | PyNone => inl (none_has_no_attribute "phase")
  | Value st =>
      if negb (phase st =? "Running")
      then inr [(pod_name pod ++ ": " ++ phase st)%string]
      else match container_statuses st with
           | Missing => inr []
           | PyNone => inl none_not_iterable
           | Value containers =>
               inr (flat_map (fun container =>
                                if negb (ready container)
                                then [(pod_name pod ++ ": container "
                                         ++ container_name container
                                         ++ " not ready")%string]
                                else []) containers)
           end
  end.

(** [for pod in etcd_pods:] on the list [unhealthy_pods]. *)
Fixpoint etcd_pods_loop (etcd_pods : list Pod) (unhealthy_pods : list string)
    : Raises (list string) :=
  match etcd_pods with
  | [] => inr unhealthy_pods
  | pod :: rest =>
      match etcd_pod_issues pod with
      | inl e => inl e
      | inr found => etcd_pods_loop rest (unhealthy_pods ++ found)
      end
  end.

Definition critical_namespaces : list string :=
  ["openshift-etcd"; "openshift-apiserver"; "openshift-kube-apiserver";
   "openshift-kube-controller-manager"; "openshift-kube-scheduler"].

(** [any(component in pod.metadata.name for component in [...])]. *)
Definition is_control_plane_pod (pod_name : string) : bool :=
  existsb (fun component => contains component pod_name)
    ["etcd"; "apiserver"; "controller-manager"; "scheduler"].

(** Body of [for container in pod.status.container_statuses:]. *)
Definition container_check (entry : EntityStatus) (container : ContainerStatus)
    : EntityStatus :=
  if negb (ready container)
  then mkEntity (name entry) (namespace entry) Unhealthy
         (issues entry
            ++ [("Container " ++ container_name container
                   ++ " not ready")%string])
         (warnings entry)
  else entry.

(** The [pod_status] dict appended for one control-plane pod, or the
    exception its checks raise. *)
Definition control_plane_pod_status (ns : string) (pod : Pod)
    : Raises EntityStatus :=
  let entry := mkEntity (pod_name pod) (Some ns) Healthy [] None in
  match pod_status pod with
  | Missing =>
      inr (mkEntity (name entry) (namespace entry) Error
             (issues entry ++ ["Unable to get pod status"]) (warnings entry))
  | PyNone => inl (none_has_no_attribute "phase")
  | Value st =>
      if negb (phase st =? "Running")
      then inr (mkEntity (name entry) (namespace entry) Unhealthy
                  (issues entry ++ [("Pod not running: " ++ phase st)%string])
                  (warnings entry))
      else match container_statuses st with
           | Missing => inr entry
           | PyNone => inl none_not_iterable
           | Value containers => inr (fold_left container_check containers entry)
           end
  end.

Definition no_pods_placeholder (ns : string) : EntityStatus :=
  mkEntity ("no-pods-in-" ++ ns) (Some ns) Warning
    [("No pods found in namespace " ++ ns)%string] None.

Definition no_control_plane_pods_placeholder (ns : string) : EntityStatus :=
  mkEntity ("no-control-plane-pods-in-" ++ ns) (Some ns) Warning
    [("No control plane pods found in namespace " ++ ns)%string] None.

(** [for pod in namespace_pods:] of [check_control_plane_pods], on the
    flag [found_control_plane_pods] and the list [results]. *)
Fixpoint namespace_pods_loop (ns : string) (namespace_pods : list Pod)
    (found_control_plane_pods : bool) (results : list EntityStatus)
    : Raises (bool * list EntityStatus) :=
  match namespace_pods with
  | [] => inr (found_control_plane_pods, results)
  | pod :: rest =>
      if negb (is_control_plane_pod (pod_name pod))
      then namespace_pods_loop ns rest found_control_plane_pods results
      else
        match control_plane_pod_status ns pod with
        | inl e => inl e
        | inr pod_status => namespace_pods_loop ns rest true (results ++ [pod_status])
        end
  end.

Section Probes.
Context {St : Type} `{Cluster St}.

(** [MasterHealth.check_master_nodes]. *)
Definition check_master_nodes : M St (list EntityStatus) :=
  try_except
    (master_nodes <- call (nodes_get "node-role.kubernetes.io/master") ;;
     let results := map master_node_status master_nodes in
     (if is_empty results
      then console_print "[yellow]Warning: No master nodes found[/yellow]"
      else ret tt) ;;
     ret results)
    (fun e =>
       console_print_markup
         ("[red]Error checking master nodes: " ++ str e ++ "[/red]") ;;
       ret [mkEntity "unknown" None Error [str e] (Some [])]).

(** [MasterHealth.check_critical_operators]. *)
Definition check_critical_operators : M St (list EntityStatus) :=
  try_except
    (operator_list <- call (operators_get None) ;;
     lift_raises (map_raises critical_operator_status operator_list))
    (fun e =>
       console_print_markup
         ("[red]Error checking critical operators: " ++ str e ++ "[/red]") ;;
       ret [mkEntity "unknown" None Error [str e] None]).

(** [MasterHealth.check_etcd_health]. *)
Definition check_etcd_health (fuel : nat) : M St AggregateStatus :=
  try_except
    (etcd_operator_list <- call (operators_get (Some "metadata.name=etcd")) ;;
     match etcd_operator_list with
     | [] =>
         ret (mkAggregate Error (Some "Unable to find etcd operator") None None)
     | etcd_operator :: _ =>
         returned <- lift_raises
                       match op_conditions etcd_operator with
                       | Missing => inr None
                       | PyNone => inl none_not_iterable
                       | Value conditions => inr (etcd_operator_conditions conditions)
                       end ;;
         match returned with
         | Some verdict => ret verdict
         | None =>
             etcd_pods <- _get_paginated_pods fuel "openshift-etcd"
                            (Some "app=etcd") ;;
             if is_empty etcd_pods
             then ret (mkAggregate Error (Some "No etcd pods found") None None)
             else
               unhealthy_pods <- lift_raises (etcd_pods_loop etcd_pods []) ;;
               if negb (is_empty unhealthy_pods)
               then ret (mkAggregate Unhealthy None (Some unhealthy_pods) None)
               else ret (mkAggregate Healthy None None
                           (Some "All etcd pods are running and ready"))
         end
     end)
    (fun e =>
       console_print_markup
         ("[red]Error checking etcd health: " ++ str e ++ "[/red]") ;;
       ret (mkAggregate Error (Some (str e)) None None)).

(** Body of [for namespace in critical_namespaces:]. *)
Definition namespace_step (fuel : nat) (results : list EntityStatus)
    (ns : string) : M St (list EntityStatus) :=
  namespace_pods <- _get_paginated_pods fuel ns None ;;
  if is_empty namespace_pods
  then ret (results ++ [no_pods_placeholder ns])
  else
    looped <- lift_raises (namespace_pods_loop ns namespace_pods false results) ;;
    let '(found_control_plane_pods, results) := looped in
    if negb found_control_plane_pods
    then ret (results ++ [no_control_plane_pods_placeholder ns])
    else ret results.

Fixpoint namespaces_loop (fuel : nat) (namespaces : list string)
    (results : list EntityStatus) : M St (list EntityStatus) :=
  match namespaces with
  | [] => ret results
  | ns :: rest =>
      results' <- namespace_step fuel results ns ;;
      namespaces_loop fuel rest results'
  end.

(** [MasterHealth.check_control_plane_pods]. *)
Definition check_control_plane_pods (fuel : nat) : M St (list EntityStatus) :=
  try_except
    (results <- namespaces_loop fuel critical_namespaces [] ;;
     if is_empty results
     then ret [mkEntity "unknown" (Some "unknown") Error
                 ["No control plane pods found in any namespace"] None]
     else ret results)
    (fun e =>
       console_print_markup
         ("[red]Error checking control plane pods: " ++ str e ++ "[/red]") ;;
       ret [mkEntity "unknown" (Some "unknown") Error [str e] None]).
End Probes.

(* ================================================================= *)
(** ** Notions used in the statements *)

(** The status-record invariant: a record at level Unhealthy or Error
    names at least one issue. *)
Definition entity_invariant (e : EntityStatus) : Prop :=
  status e = Unhealthy \/ status e = Error -> issues e <> [].

(** The entities a run of a probe hands to its caller. *)
Definition produced {St A : Type} (run : Res (list A) * World St) : list A :=
  match fst run with
  | Val l => l
  | Exc _ => []
  | Diverge => []
  end.

(** The operator check of the etcd probe passes: the condition loop runs
    to its end, no condition says Degraded is true and none says Available
    is anything but true. *)
Definition etcd_operator_check_passes (operator : ClusterOperator) : Prop :=
  match op_conditions operator with
  | Value conditions =>
      forall c, In c conditions ->
        (cond_type c = "Degraded" -> cond_status c <> "True") /\
        (cond_type c = "Available" -> cond_status c = "True")
  | Missing => True
  | PyNone => False
  end.

(** The console line of a failed attempt of [_get_paginated_response]
    made when [retry_count] attempts had failed before. *)
Definition attempt_warning (retry_count : nat) (e : Exn) : string :=
  "[yellow]Warning: API call failed, attempt " ++ str_nat (retry_count + 1)
    ++ " of " ++ str_nat max_retries ++ "... (" ++ str e ++ ")[/yellow]".

Fixpoint attempt_warnings (retry_count : nat) (errs : list Exn) : list string :=
  match errs with
  | [] => []
  | e :: rest => attempt_warning retry_count e :: attempt_warnings (S retry_count) rest
  end.

(** The pages of a list that the pod fetcher keeps: the first one and the
    following ones up to the first page without items. *)
Fixpoint pages_until_empty {Item : Type} (rest : list (Page Item))
    : list (Page Item) :=
  match rest with
  | [] => []
  | p :: rest' => if is_empty (items p) then [] else p :: pages_until_empty rest'
  end.

Definition kept_pages {Item : Type} (pages : list (Page Item)) : list (Page Item) :=
  match pages with
  | [] => []
  | first :: rest => first :: pages_until_empty rest
  end.

Definition all_items {Item : Type} (pages : list (Page Item)) : list Item :=
  concat (map items pages).

Section Chains.
Context {St : Type} `{Cluster St}.

(** From state [s], the server answers the continuation requests that
    follow page [prev] with the pages [rest], each request presenting the
    token of the page before it; the token of the last page is falsy. The
    server is in state [s_end] afterwards. *)
Fixpoint pod_pages_follow (ns : string) (sel : option string)
    (prev : Page Pod) (s : St) (rest : list (Page Pod)) (s_end : St) : Prop :=
  match rest with
  | [] => truthy (metadata_continue prev) = false /\ s_end = s
  | p :: rest' =>
      truthy (metadata_continue prev) = true /\
      exists s',
        list_namespaced_pod
          (mkPodListRequest ns sel 100 (metadata_continue prev)) s
        = (inr (Some p), s') /\
        pod_pages_follow ns sel p s' rest' s_end
  end.

(** The pod list of [ns] is served as the chain [pages], first page
    first. *)
Definition pod_pages_served (ns : string) (sel : option string) (s : St)
    (pages : list (Page Pod)) (s_end : St) : Prop :=
  match pages with
  | [] => False
  | first :: rest =>
      exists s',
        list_namespaced_pod (mkPodListRequest ns sel 100 None) s
        = (inr (Some first), s') /\
        pod_pages_follow ns sel first s' rest s_end
  end.

(** The fetches of [check_control_plane_pods] alone, namespace by
    namespace, with what each returned. *)
Fixpoint fetch_namespaces (fuel : nat) (namespaces : list string)
    : M St (list (string * list Pod)) :=
  match namespaces with
  | [] => ret []
  | ns :: rest =>
      pods <- _get_paginated_pods fuel ns None ;;
      fetched <- fetch_namespaces fuel rest ;;
      ret ((ns, pods) :: fetched)
  end.
End Chains.

Section ResponseChains.
Context {St Item : Type}.
Variable api_call : Kwargs -> St -> (Exn + Page Item) * St.

(** The same chain for the [api_call] of [_get_paginated_response], whose
    requests carry [limit=50]. *)
Fixpoint response_pages_follow (prev : Page Item) (s : St)
    (rest : list (Page Item)) (s_end : St) : Prop :=
  match rest with
  | [] => truthy (metadata_continue prev) = false /\ s_end = s
  | p :: rest' =>
      truthy (metadata_continue prev) = true /\
      exists s',
        api_call (mkKwargs (Some 50) (metadata_continue prev)) s = (inr p, s') /\
        response_pages_follow p s' rest' s_end
  end.

Definition response_pages_served (kwargs : Kwargs) (s : St)
    (pages : list (Page Item)) (s_end : St) : Prop :=
  match pages with
  | [] => False
  | first :: rest =>
      exists s',
        api_call (mkKwargs (Some 50) (kw_continue kwargs)) s = (inr first, s') /\
        response_pages_follow first s' rest s_end
  end.

End ResponseChains.

(** The pods of a namespace that the probe looks into. *)
Definition control_plane_pods (pods : list Pod) : list Pod :=
  filter (fun pod => is_control_plane_pod (pod_name pod)) pods.

(** What one namespace adds to [results], given the pods fetched for it,
    or the exception that ends the run there. *)
Definition namespace_entries (ns : string) (pods : list Pod)
    : Raises (list EntityStatus) :=
  if is_empty pods then inr [no_pods_placeholder ns]
  else
    match map_raises (control_plane_pod_status ns) (control_plane_pods pods) with
    | inl e => inl e
    | inr [] => inr [no_control_plane_pods_placeholder ns]
    | inr records => inr records
    end.

(** The message an adverse operator condition contributes, if any. *)
Definition operator_message (c : Condition) : option string :=
  if (cond_type c =? "Degraded") && (cond_status c =? "True")
  then Some (cond_message c)
  else if (cond_type c =? "Progressing") && (cond_status c =? "True")
  then Some ("Operator is progressing: " ++ cond_message c)%string
  else if (cond_type c =? "Available") && negb (cond_status c =? "True")
  then Some ("Operator not available: " ++ cond_message c)%string
  else None.

(** The entries of a whole run, from what was fetched per namespace. *)
Fixpoint fetched_entries (fetched : list (string * list Pod))
    : Raises (list EntityStatus) :=
  match fetched with
  | [] => inr []
  | (ns, pods) :: rest =>
      match namespace_entries ns pods with
      | inl e => inl e
      | inr entries =>
          match fetched_entries rest with
          | inl e => inl e
          | inr more => inr (entries ++ more)
          end
      end
  end.

(** The checks of both pod loops raise nothing on this pod: it has a
    status, or none to ask, and a running pod has its container list, or
    none to ask. *)
Definition pod_checks_pass (pod : Pod) : Prop :=
  match pod_status pod with
  | Missing => True
  | PyNone => False
  | Value st =>
      phase st = "Running" -> container_statuses st <> PyNone
  end.

(** The console lines of the [except] handlers. *)
Definition pods_error_line (e : Exn) : string :=
  match e with
  | ApiException _ => "[red]Error getting pods: " ++ str e ++ "[/red]"
  | PyException _ => "[red]Unexpected error getting pods: " ++ str e ++ "[/red]"
  end.

Definition master_nodes_error_line (e : Exn) : string :=
  "[red]Error checking master nodes: " ++ str e ++ "[/red]".

Definition operators_error_line (e : Exn) : string :=
  "[red]Error checking critical operators: " ++ str e ++ "[/red]".

Definition etcd_error_line (e : Exn) : string :=
  "[red]Error checking etcd health: " ++ str e ++ "[/red]".

Definition control_plane_error_line (e : Exn) : string :=
  "[red]Error checking control plane pods: " ++ str e ++ "[/red]".

(* ================================================================= *)
(** ** The remaining probes *)

(** A pod as the dynamic client returns it to [check_api_server_health]:
    [.metadata.name], [.status.phase] and [.status.container_statuses],
    which is falsy when [None] or empty. *)
Record DynContainerStatus : Type := mkDynContainer {
  dyn_ready : bool;
  restart_count : nat
}.

Record DynPod : Type := mkDynPod {
  dyn_name : string;
  dyn_phase : string;
  dyn_container_statuses : option (list DynContainerStatus)
}.

(** The per-pod dict [{'ready', 'restarts', 'phase'}]. *)
Record PodRecord : Type := mkPodRecord {
  rec_ready : bool;
  rec_restarts : nat;
  rec_phase : string
}.

(** The [api_status] dict; [endpoint_healthy = None] until the key is
    set. ['pod_status'] is a dict keyed by pod name, kept in insertion
    order. *)
Record ApiStatus : Type := mkApiStatus {
  healthy_servers : nat;
  total_servers : nat;
  pod_status_dict : list (string * PodRecord);
  endpoint_healthy : option bool
}.

(** What [check_api_server_health] returns: the [api_status] dict or
    [{'error': ...}]. *)
Inductive ApiServerHealth : Type :=
| ApiHealth (api_status : ApiStatus)
| ApiHealthError (error : string).

(** A config map: [cm.data] behind [hasattr(cm, 'data')], a value being
    the key/value pairs in [.items()] order. The dynamic client answers
    [None] for a config map without data. *)
Record ConfigMap : Type := mkConfigMap {
  cm_data : Attr (list (string * string))
}.

(** The capabilities the remaining probes use besides [Cluster]. *)
Class Environment (St : Type) : Type := {
  (** [resources.get(kind='Pod').get(namespace=.., label_selector=..)],
      returning [.items]. *)
  pods_get : string -> string -> St -> (Exn + list DynPod) * St;
  (** [requests.get(url, verify=False, timeout=5).status_code]. *)
  requests_get : string -> St -> (Exn + nat) * St;
  (** [resources.get(kind='ConfigMap').get(namespace=.., label_selector=..)]:
      [None] for a response that is falsy or has no [items], otherwise
      [.items]. *)
  configmaps_get : string -> string -> St -> (Exn + option (list ConfigMap)) * St
}.

(** [d[k] = v] on a dict kept as an association list in insertion order:
    an existing key keeps its place and takes the new value. *)
Fixpoint dict_set {V : Type} (k : string) (v : V) (d : list (string * V))
    : list (string * V) :=
  match d with
  | [] => [(k, v)]
  | (k', v') :: rest =>
      if k' =? k then (k, v) :: rest else (k', v') :: dict_set k v rest
  end.

(** [d.get(k)]. *)
Fixpoint dict_get {V : Type} (k : string) (d : list (string * V)) : option V :=
  match d with
  | [] => None
  | (k', v') :: rest => if k' =? k then Some v' else dict_get k rest
  end.

(** The [pod_status] dict built for one API server pod. *)
Definition api_pod_record (pod : DynPod) : PodRecord :=
  match dyn_container_statuses pod with
  | Some (first :: _) =>
      mkPodRecord (dyn_ready first) (restart_count first) (dyn_phase pod)
  | Some [] => mkPodRecord false 0 (dyn_phase pod)
  | None => mkPodRecord false 0 (dyn_phase pod)
  end.

(** Body of [for pod in api_pods.items:]. *)
Definition api_server_step (api_status : ApiStatus) (pod : DynPod) : ApiStatus :=
  let pod_status := api_pod_record pod in
  let api_status :=
    mkApiStatus (healthy_servers api_status) (total_servers api_status)
      (dict_set (dyn_name pod) pod_status (pod_status_dict api_status))
      (endpoint_healthy api_status) in
  if rec_ready pod_status
  then mkApiStatus (healthy_servers api_status + 1) (total_servers api_status)
         (pod_status_dict api_status) (endpoint_healthy api_status)
  else api_status.

(** [s.lower()] on ASCII text. *)
Definition lower_char (c : ascii) : ascii :=
  let n := nat_of_ascii c in
  if ((65 <=? n) && (n <=? 90))%nat then ascii_of_nat (n + 32) else c.

Fixpoint lower (s : string) : string :=
  match s with
  | EmptyString => EmptyString
  | String c rest => String (lower_char c) (lower rest)
  end.

(** The test of the certificate scan on one value. *)
Definition cert_flagged (cert_info : string) : bool :=
  contains "expiring" (lower cert_info) || contains "expired" (lower cert_info).

(** What the two nested loops append to [issues] for one config map, or
    the exception of [cm.data.items()]. *)
Definition configmap_issues (cm : ConfigMap) : Raises (list string) :=
  match cm_data cm with
  | Missing => inr []
  | PyNone => inl (none_has_no_attribute "items")
  | Value data =>
      inr (flat_map (fun entry =>
                       if cert_flagged (snd entry)
                       then [("Certificate " ++ fst entry ++ " is "
                                ++ snd entry)%string]
                       else []) data)
  end.

(** [for cm in cert_configmaps.items:] on the list [issues]. *)
Fixpoint configmaps_loop (cms : list ConfigMap) (issues_ : list string)
    : Raises (list string) :=
  match cms with
  | [] => inr issues_
  | cm :: rest =>
      match configmap_issues cm with
      | inl e => inl e
      | inr found => configmaps_loop rest (issues_ ++ found)
      end
  end.

Section MoreProbes.
Context {St : Type} `{Cluster St} `{Environment St}.

(** [MasterHealth._check_api_endpoint]. *)
Definition _check_api_endpoint : M St bool :=
  try_except
    (status_code <- call (requests_get "https://api.cluster.com:6443/healthz") ;;
     ret (status_code =? 200)%nat)
    (fun _ => ret false).

(** [MasterHealth.check_api_server_health]. *)
Definition check_api_server_health : M St ApiServerHealth :=
  try_except
    (api_pods <- call (pods_get "openshift-kube-apiserver"
                         "app=openshift-kube-apiserver") ;;
     let api_status :=
       fold_left api_server_step api_pods
         (mkApiStatus 0 (length api_pods) [] None) in
     endpoint <- _check_api_endpoint ;;
     ret (ApiHealth (mkApiStatus (healthy_servers api_status)
                       (total_servers api_status) (pod_status_dict api_status)
                       (Some endpoint))))
    (fun e =>
       console_print_markup
         ("[red]Error checking API server health: " ++ str e ++ "[/red]") ;;
       ret (ApiHealthError (str e))).

(** [MasterHealth.check_certificates]. *)
Definition check_certificates : M St AggregateStatus :=
  try_except
    (cert_configmaps <- call (configmaps_get "openshift-config-managed"
                                "config.openshift.io/component=Certificates") ;;
     match cert_configmaps with
     | None =>
         ret (mkAggregate Error (Some "Certificate status configmap not found")
                None None)
     | Some cms =>
         issues_ <- lift_raises (configmaps_loop cms []) ;;
         if negb (is_empty issues_)
         then ret (mkAggregate Warning None (Some issues_) None)
         else ret (mkAggregate Healthy None None
                     (Some "All certificates are valid"))
     end)
    (fun e => ret (mkAggregate Error (Some (str e)) None None)).
End MoreProbes.


(* ================================================================= *)
(** ** Further notions used in the statements *)

Definition opt_list {A : Type} (o : option A) : list A :=
  match o with
  | Some a => [a]
  | None => []
  end.

(** The issue a node condition stands for: a Ready condition whose status
    is not 'True'. *)
Definition node_issue (c : Condition) : option string :=
  if (cond_type c =? "Ready") && negb (cond_status c =? "True")
  then Some ("Node not ready: " ++ cond_message c)%string
  else None.

(** The warning a node condition stands for: a pressure condition whose
    status is 'True'. *)
Definition node_warning (c : Condition) : option string :=
  if (cond_type c =? "Ready") && negb (cond_status c =? "True")
  then None
  else if str_in (cond_type c) ["DiskPressure"; "MemoryPressure"; "PIDPressure"]
          && (cond_status c =? "True")
  then Some (cond_type c ++ ": " ++ cond_message c)%string
  else None.

(** An etcd operator condition that ends the etcd probe at once. *)
Definition etcd_adverse (c : Condition) : bool :=
  ((cond_type c =? "Degraded") && (cond_status c =? "True"))
  || ((cond_type c =? "Available") && negb (cond_status c =? "True")).

Definition etcd_adverse_message (c : Condition) : string :=
  if (cond_type c =? "Degraded") && (cond_status c =? "True")
  then cond_message c
  else ("etcd operator not available: " ++ cond_message c)%string.

(** A pod has a status, is in phase Running and, when it lists container
    statuses, all its containers are ready. *)
Definition pod_running_and_ready (pod : Pod) : Prop :=
  exists st,
    pod_status pod = Value st /\
    phase st = "Running" /\
    match container_statuses st with
    | Value containers => forall c, In c containers -> ready c = true
    | Missing => True
    | PyNone => False
    end.

(** [s.upper()] on ASCII text. *)
Definition upper_char (c : ascii) : ascii :=
  let n := nat_of_ascii c in
  if ((97 <=? n) && (n <=? 122))%nat then ascii_of_nat (n - 32) else c.

Fixpoint upper (s : string) : string :=
  match s with
  | EmptyString => EmptyString
  | String c rest => String (upper_char c) (upper rest)
  end.

(** The message the certificate scan records for a flagged entry. *)
Definition certificate_message (entry : string * string) : string :=
  "Certificate " ++ fst entry ++ " is " ++ snd entry.

(** [entry] is a key/value pair of the data of one of the config maps. *)
Definition certificate_entry (cms : list ConfigMap) (entry : string * string)
    : Prop :=
  exists cm data, In cm cms /\ cm_data cm = Value data /\ In entry data.

Section RetryNotions.
Context {St Item : Type}.
Variable api_call : Kwargs -> St -> (Exn + Page Item) * St.

(** From state [s], the first request of a fetch, which presents the token
    [tok] the caller may have passed, fails with the causes [errs], one
    after the other, leaving the server in state [s']. *)
Fixpoint first_request_fails (tok : option string) (s : St) (errs : list Exn)
    (s' : St) : Prop :=
  match errs with
  | [] => s' = s
  | e :: rest =>
      exists s1,
        api_call (mkKwargs (Some 50) tok) s = (inl e, s1) /\
        first_request_fails tok s1 rest s'
  end.

(** The last page of a chain that starts with [prev]. *)
Definition last_page (prev : Page Item) (rest : list (Page Item)) : Page Item :=
  fold_left (fun _ p => p) rest prev.

(** From state [s], the continuation requests that follow page [prev] are
    answered with the pages [rest], and the request that follows the last
    of them raises [e], leaving the server in state [s_f]. *)
Fixpoint response_pages_then_fail (prev : Page Item) (s : St)
    (rest : list (Page Item)) (e : Exn) (s_f : St) : Prop :=
  truthy (metadata_continue prev) = true /\
  match rest with
  | [] => api_call (mkKwargs (Some 50) (metadata_continue prev)) s = (inl e, s_f)
  | p :: rest' =>
      exists s',
        api_call (mkKwargs (Some 50) (metadata_continue prev)) s = (inr p, s') /\
        response_pages_then_fail p s' rest' e s_f
  end.

(** The first attempt of a fetch fails with [e]: its first request raises,
    or its first pages are served and the request that follows them
    raises. [tok] is the continuation token of the request that failed and
    [s'] the state the failure leaves the server in. *)
Definition attempt_fails (fuel : nat) (kwargs : Kwargs) (s : St) (e : Exn)
    (tok : option string) (s' : St) : Prop :=
  (api_call (mkKwargs (Some 50) (kw_continue kwargs)) s = (inl e, s')
   /\ tok = kw_continue kwargs)
  \/ (exists first s1 rest,
        api_call (mkKwargs (Some 50) (kw_continue kwargs)) s = (inr first, s1)
        /\ response_pages_then_fail first s1 rest e s'
        /\ length rest < fuel
        /\ tok = metadata_continue (last_page first rest)).
End RetryNotions.

(** The console of [w] takes every one of the lines. *)
Definition prints {St : Type} (w : World St) (lines : list string) : Prop :=
  Forall (fun line => markup_error w line = None) lines.

(** The last pod of the list that carries the given name. *)
Definition last_pod_named (k : string) (pods : list DynPod) : option DynPod :=
  find (fun pod => dyn_name pod =? k) (rev pods).

(** The level a node condition sets, if any. *)
Definition node_level (c : Condition) : option StatusLevel :=
  match node_issue c, node_warning c with
  | Some _, _ => Some Unhealthy
  | None, Some _ => Some Warning
  | None, None => None
  end.

(** The level an operator condition sets, if any. *)
Definition operator_level (c : Condition) : option StatusLevel :=
  if (cond_type c =? "Degraded") && (cond_status c =? "True") then Some Unhealthy
  else if (cond_type c =? "Progressing") && (cond_status c =? "True")
  then Some Warning
  else if (cond_type c =? "Available") && negb (cond_status c =? "True")
  then Some Unhealthy
  else None.

(** The first container status of an API server pod says ready. *)
Definition first_container_ready (pod : DynPod) : bool :=
  match dyn_container_statuses pod with
  | Some (first :: _) => dyn_ready first
  | Some [] => false
  | None => false
  end.

(** What the endpoint check makes of the answer to its request. *)
Definition endpoint_verdict (answer : Exn + nat) : bool :=
  match answer with
  | inr status_code => (status_code =? 200)%nat
  | inl _ => false
  end.

(** The console line of the API server probe's handler. *)
Definition api_server_error_line (e : Exn) : string :=
  "[red]Error checking API server health: " ++ str e ++ "[/red]".

(* ================================================================= *)
(** ** Concrete clusters *)

(** A cluster whose answers are scripted by the number of calls it has
    answered so far, which is its state. *)
Definition scripted_cluster
    (nodes : nat -> Exn + list Node)
    (operators : nat -> Exn + list ClusterOperator)
    (pods : PodListRequest -> nat -> Exn + option (Page Pod)) : Cluster nat :=
  {| nodes_get := fun _ n => (nodes n, S n);
     operators_get := fun _ n => (operators n, S n);
     list_namespaced_pod := fun req n => (pods req n, S n) |}.

Definition fresh_world : World nat := mkWorld 0 [] [].

Definition running_pod (pod_name : string) : Pod :=
  mkPod pod_name (Value (mkPodStatus "Running" (Value [mkContainer "main" true]))).

(** A master node that is not ready and, listed after that, under disk
    pressure; and the same node with the two conditions swapped. *)
Definition not_ready_then_pressure : Node :=
  mkNode "master-0"
    [mkCondition "Ready" "False" "kubelet stopped posting node status";
     mkCondition "DiskPressure" "True" "kubelet has disk pressure"].

Definition pressure_then_not_ready : Node :=
  mkNode "master-0"
    [mkCondition "DiskPressure" "True" "kubelet has disk pressure";
     mkCondition "Ready" "False" "kubelet stopped posting node status"].

Definition one_master_cluster (node : Node) : Cluster nat :=
  scripted_cluster (fun _ => inr [node]) (fun _ => inr [])
    (fun _ _ => inr (Some (mkPage [] None))).

(** An operator that is degraded and, listed after that, progressing; and
    the same operator with the two conditions swapped. *)
Definition degraded_then_progressing : ClusterOperator :=
  mkOperator "etcd"
    (Value [mkCondition "Degraded" "True" "raft instability";
            mkCondition "Progressing" "True" "rolling out revision 7"]).

Definition progressing_then_degraded : ClusterOperator :=
  mkOperator "etcd"
    (Value [mkCondition "Progressing" "True" "rolling out revision 7";
            mkCondition "Degraded" "True" "raft instability"]).

Definition one_operator_cluster (operator : ClusterOperator) : Cluster nat :=
  scripted_cluster (fun _ => inr []) (fun _ => inr [operator])
    (fun _ _ => inr (Some (mkPage [] None))).

(** Two pages of names; the request for the second page fails the first
    time it is made (the second call the server answers) and succeeds
    afterwards. *)
Definition flaky_second_page (kwargs : Kwargs) (n : nat)
    : (Exn + Page string) * nat :=
  match kw_continue kwargs with
  | None => (inr (mkPage ["pod-1"; "pod-2"] (Some "page-2")), S n)
  | Some tok =>
      if tok =? "page-2" then
        if (n =? 1)%nat then (inl (ApiException "connection reset"), S n)
        else (inr (mkPage ["pod-3"; "pod-4"] None), S n)
      else (inl (ApiException "410 Gone"), S n)
  end.

(** The same two pages served without failure. *)
Definition steady_two_pages (kwargs : Kwargs) (n : nat)
    : (Exn + Page string) * nat :=
  match kw_continue kwargs with
  | None => (inr (mkPage ["pod-1"; "pod-2"] (Some "page-2")), S n)
  | Some tok =>
      if tok =? "page-2" then (inr (mkPage ["pod-3"; "pod-4"] None), S n)
      else (inl (ApiException "410 Gone"), S n)
  end.


(** A cluster with no master node. *)
Definition no_master_cluster : Cluster nat :=
  scripted_cluster (fun _ => inr []) (fun _ => inr [])
    (fun _ _ => inr (Some (mkPage [] None))).

(** A cluster whose pod list call always raises. *)
Definition pods_down_cluster : Cluster nat :=
  scripted_cluster (fun _ => inr []) (fun _ => inr [])
    (fun _ _ => inl (ApiException "503 Service Unavailable")).

(** A cluster whose namespaces are all empty. *)
Definition empty_cluster : Cluster nat :=
  scripted_cluster (fun _ => inr []) (fun _ => inr [])
    (fun _ _ => inr (Some (mkPage [] None))).

(** Three pages of pods in every namespace, the second of them without
    items but with a continuation token. *)
Definition gap_pages : list (Page Pod) :=
  [mkPage [running_pod "etcd-0"] (Some "c1");
   mkPage [] (Some "c2");
   mkPage [running_pod "etcd-1"] None].

Definition pages_by_token (pages : list (Page Pod)) (req : PodListRequest)
    : Exn + option (Page Pod) :=
  match req_continue req, pages with
  | None, p0 :: _ => inr (Some p0)
  | Some tok, _ :: p1 :: rest =>
      if tok =? "c1" then inr (Some p1)
      else match rest with
           | p2 :: _ => if tok =? "c2" then inr (Some p2)
                        else inl (ApiException "410 Gone")
           | [] => inl (ApiException "410 Gone")
           end
  | _, _ => inl (ApiException "410 Gone")
  end.

Definition gap_cluster : Cluster nat :=
  scripted_cluster (fun _ => inr []) (fun _ => inr [])
    (fun req _ => pages_by_token gap_pages req).

(** Two pages of pods, both with items. *)
Definition full_pages : list (Page Pod) :=
  [mkPage [running_pod "etcd-0"; running_pod "etcd-1"] (Some "c1");
   mkPage [running_pod "etcd-2"] None].

Definition full_cluster : Cluster nat :=
  scripted_cluster (fun _ => inr []) (fun _ => inr [])
    (fun req _ => pages_by_token full_pages req).

(** The etcd operator is available and not degraded, and no pod is
    listed. *)
Definition available_etcd : ClusterOperator :=
  mkOperator "etcd"
    (Value [mkCondition "Available" "True" "members are available";
            mkCondition "Degraded" "False" "";
            mkCondition "Progressing" "False" ""]).

Definition etcd_without_pods_cluster : Cluster nat :=
  scripted_cluster (fun _ => inr []) (fun _ => inr [available_etcd])
    (fun _ _ => inr (Some (mkPage [] None))).

(** [openshift-etcd] holds one unrelated pod, [openshift-apiserver] holds
    none, the other namespaces hold one control-plane pod each. *)
Definition mixed_cluster : Cluster nat :=
  scripted_cluster (fun _ => inr []) (fun _ => inr [])
    (fun req _ =>
       if req_namespace req =? "openshift-etcd"
       then inr (Some (mkPage [running_pod "foo-unrelated"] None))
       else if req_namespace req =? "openshift-apiserver"
       then inr (Some (mkPage [] None))
       else inr (Some (mkPage [running_pod "kube-apiserver-master-0"] None))).


(* ================================================================= *)
(** ** Further concrete clusters *)

(** The etcd operator is available and two etcd pods are listed. *)
Definition etcd_with_pods_cluster : Cluster nat :=
  scripted_cluster (fun _ => inr []) (fun _ => inr [available_etcd])
    (fun _ _ => inr (Some (mkPage [running_pod "etcd-0"; running_pod "etcd-1"] None))).

(** A pod that is still pending: it has a status and no container
    statuses yet. *)
Definition pending_pod (pod_name : string) : Pod :=
  mkPod pod_name (Value (mkPodStatus "Pending" PyNone)).

(** A pod reported as running whose container statuses are not set. *)
Definition running_pod_without_containers (pod_name : string) : Pod :=
  mkPod pod_name (Value (mkPodStatus "Running" PyNone)).

(** [openshift-etcd] holds no pod; every other namespace holds one
    control-plane pod, running, whose container statuses are not set. *)
Definition unset_statuses_cluster : Cluster nat :=
  scripted_cluster (fun _ => inr []) (fun _ => inr [])
    (fun req _ =>
       if req_namespace req =? "openshift-etcd"
       then inr (Some (mkPage [] None))
       else inr (Some (mkPage
                         [running_pod_without_containers "kube-apiserver-master-0"]
                         None))).

(** A cluster whose pod list call always raises, with an error text that
    holds a closing tag. *)
Definition unprintable_cause_cluster : Cluster nat :=
  scripted_cluster (fun _ => inr []) (fun _ => inr [])
    (fun _ _ => inl (ApiException "(503) Reason: [/oops]")).

(** Every namespace lists four pods, two of them control-plane pods. *)
Definition busy_cluster : Cluster nat :=
  scripted_cluster (fun _ => inr []) (fun _ => inr [])
    (fun _ _ =>
       inr (Some (mkPage [running_pod "foo-unrelated";
                          running_pod "kube-apiserver-master-0";
                          running_pod "installer-3-master-0";
                          pending_pod "etcd-master-0"] None))).

(** An environment that answers from fixed data and counts its calls. *)
Definition scripted_environment (pods : Exn + list DynPod) (healthz : Exn + nat)
    (configmaps : Exn + option (list ConfigMap)) : Environment nat :=
  {| pods_get := fun _ _ n => (pods, S n);
     requests_get := fun _ n => (healthz, S n);
     configmaps_get := fun _ _ n => (configmaps, S n) |}.

(** Three API server pods: one ready, one not ready, one without
    container statuses; the first two share a name. *)
Definition api_server_pods : list DynPod :=
  [mkDynPod "kube-apiserver-master-0" "Running" (Some [mkDynContainer true 2]);
   mkDynPod "kube-apiserver-master-0" "Running" (Some [mkDynContainer false 7]);
   mkDynPod "kube-apiserver-master-1" "Pending" None].

(** Config maps with one expiring certificate, one expired one written in
    capitals, and a valid one. *)
Definition certificate_configmaps : list ConfigMap :=
  [mkConfigMap (Value [("kube-apiserver-to-kubelet", "valid until 2027-03-01");
                       ("etcd-signer", "expiring in 12 days")]);
   mkConfigMap (Value []);
   mkConfigMap (Value [("aggregator-client", "EXPIRED on 2024-12-24")])].

(** The same config maps, the second of them without data. *)
Definition configmaps_with_unset_data : list ConfigMap :=
  [mkConfigMap (Value [("etcd-signer", "expiring in 12 days")]);
   mkConfigMap PyNone;
   mkConfigMap (Value [("aggregator-client", "EXPIRED on 2024-12-24")])].

(** The API server pods are listed, the endpoint request times out, the
    certificate config maps are served. *)
Definition timeout_environment : Environment nat :=
  scripted_environment (inr api_server_pods)
    (inl (PyException "HTTPSConnectionPool: read timed out"))
    (inr (Some certificate_configmaps)).

(* ================================================================= *)
(** ** The model on small inputs *)

Example contains_component :
  contains "apiserver" "kube-apiserver-master-0" = true
  /\ contains "etcd" "foo-unrelated" = false
  /\ contains "" "anything" = true.
Proof. repeat split. Qed.

Example control_plane_names :
  map is_control_plane_pod
    ["etcd-master-0"; "openshift-kube-scheduler-master-1"; "foo-unrelated";
     "installer-7-master-0"]
  = [true; true; false; false].
Proof. reflexivity. Qed.

Example token_truth :
  map truthy [None; Some ""; Some "eyJ2IjoibWV0YS5rOHMuaW8vdjEifQ"]
  = [false; false; true].
Proof. reflexivity. Qed.

(** A node under memory pressure only is at level Warning, with no issue. *)
Example pressure_only_node :
  master_node_status
    (mkNode "master-1"
       [mkCondition "MemoryPressure" "True" "low memory";
        mkCondition "Ready" "True" "kubelet is posting ready status"])
  = mkEntity "master-1" None Warning [] (Some ["MemoryPressure: low memory"]).
Proof. reflexivity. Qed.

(** The scenario of the specification: a degraded etcd operator. *)
Example degraded_etcd_operator :
  critical_operator_status
    (mkOperator "etcd" (Value [mkCondition "Degraded" "True" "raft instability"]))
  = inr (mkEntity "etcd" None Unhealthy ["raft instability"] None).
Proof. reflexivity. Qed.

(** With every pod list call raising, the Control-Plane Pods probe returns
    what it returns on a cluster whose namespaces are empty. *)
Example pods_down_like_empty :
  produced (@check_control_plane_pods nat pods_down_cluster 0 fresh_world)
  = produced (@check_control_plane_pods nat empty_cluster 0 fresh_world).
Proof. vm_compute. reflexivity. Qed.

(** A server that always hands out a token and a pod keeps the pod fetcher
    in its loop: whatever the fuel, it is used up. *)
Example endless_pages_diverge :
  fst (@_get_paginated_pods nat
         (scripted_cluster (fun _ => inr []) (fun _ => inr [])
            (fun _ _ => inr (Some (mkPage [running_pod "etcd-0"] (Some "next")))))
         20 "openshift-etcd" None fresh_world)
  = Diverge.
Proof. vm_compute. reflexivity. Qed.

(** The certificate probe on config maps with an expiring and an expired
    certificate: both are reported, whatever the case of the text. *)
Example certificates_flagged :
  fst (@check_certificates nat timeout_environment fresh_world)
  = Val (mkAggregate Warning None
           (Some ["Certificate etcd-signer is expiring in 12 days";
                  "Certificate aggregator-client is EXPIRED on 2024-12-24"])
           None).
Proof. vm_compute. reflexivity. Qed.

(** What the console makes of three lines: balanced tags print, a closing
    tag without its opening tag does not, an escaped one does. *)
Example markup_of_three_lines :
  rich_markup_error "[red]Error getting pods: 503 Service Unavailable[/red]" = None
  /\ rich_markup_error "[red]Error getting pods: [/oops][/red]"
     = Some "closing tag '[/oops]' at position 25 doesn't match any open tag"
  /\ rich_markup_error "[red]list \[/oops] of ['a', 'b'][/red]" = None.
Proof. repeat split. Qed.

(* ================================================================= *)
(** ** Status derivation: master nodes and cluster operators *)

Lemma node_condition_keeps_issues (st : EntityStatus) (c : Condition) (msg : string) :
  In msg (issues st) -> In msg (issues (node_condition st c)).
Proof.
  intros Hin. unfold node_condition.
  destruct ((cond_type c =? "Ready") && negb (cond_status c =? "True")).
  - cbn [issues]. apply in_or_app. now left.
  - destruct (str_in (cond_type c) ["DiskPressure"; "MemoryPressure"; "PIDPressure"]
              && (cond_status c =? "True")); cbn [issues]; assumption.
Qed.

Lemma node_conditions_keep_issues (conds : list Condition) :
  forall (st : EntityStatus) (msg : string),
    In msg (issues st) -> In msg (issues (fold_left node_condition conds st)).
Proof.
  induction conds as [|c conds IH]; intros st msg Hin; simpl.
  - exact Hin.
  - apply IH. now apply node_condition_keeps_issues.
Qed.

(** The part of the Ready rule that holds whatever the order of the
    conditions: the message of a failed Ready condition is recorded. *)
Lemma ready_failure_recorded (node : Node) (c : Condition) :
  In c (node_conditions node) ->
  cond_type c = "Ready" ->
  cond_status c <> "True" ->
  In ("Node not ready: " ++ cond_message c)%string (issues (master_node_status node)).
Proof.
  unfold master_node_status.
  generalize (mkEntity (node_name node) None Healthy [] (Some [])).
  induction (node_conditions node) as [|c0 conds IH]; intros st Hin Hty Hst.
  - destruct Hin.
  - simpl. destruct Hin as [-> | Hin].
    + apply node_conditions_keep_issues.
      unfold node_condition.
      rewrite Hty. apply String.eqb_neq in Hst. rewrite Hst. simpl.
      apply in_or_app. right. now left.
    + now apply IH.
Qed.

Lemma operator_condition_keeps_issues (st : EntityStatus) (c : Condition) (msg : string) :
  In msg (issues st) -> In msg (issues (operator_condition st c)).
Proof.
  intros Hin. unfold operator_condition.
  repeat match goal with
         | |- context [if ?b then _ else _] => destruct b; simpl
         end; try assumption; apply in_or_app; now left.
Qed.

Lemma operator_conditions_keep_issues (conds : list Condition) :
  forall (st : EntityStatus) (msg : string),
    In msg (issues st) -> In msg (issues (fold_left operator_condition conds st)).
Proof.
  induction conds as [|c conds IH]; intros st msg Hin; simpl.
  - exact Hin.
  - apply IH. now apply operator_condition_keeps_issues.
Qed.

(** The part of the operator rule that holds whatever the order of the
    conditions: no message of an adverse condition is dropped. *)
Lemma operator_messages_recorded (operator : ClusterOperator)
    (conds : list Condition) (c : Condition) (msg : string) :
  op_conditions operator = Value conds ->
  In c conds ->
  operator_message c = Some msg ->
  exists st,
    critical_operator_status operator = inr st /\ In msg (issues st).
Proof.
  unfold critical_operator_status. intros -> .
  eexists; split; [reflexivity|]. revert H H0.
  generalize (mkEntity (op_name operator) None Healthy [] None).
  induction conds as [|c0 conds IH]; intros st Hin Hmsg.
  - destruct Hin.
  - simpl. destruct Hin as [-> | Hin].
    + apply operator_conditions_keep_issues.
      unfold operator_message in Hmsg. unfold operator_condition.
      repeat match goal with
             | H : context [if ?b then _ else _] |- _ => destruct b; simpl in *
             end; try discriminate;
        injection Hmsg as <-; apply in_or_app; right; now left.
    + now apply IH.
Qed.

(** C1 (the code departs from the claim): a master node whose Ready
    condition is False, followed in the list by a DiskPressure condition
    that is True, is reported at level Warning, not Unhealthy, although its
    issues hold the Ready message; with the two conditions swapped the same
    node is reported Unhealthy. The level is the one of the last adverse
    condition, not the maximum. *)
Theorem C1_pressure_after_not_ready_reports_warning :
  produced (@check_master_nodes nat (one_master_cluster not_ready_then_pressure)
              fresh_world)
  = [mkEntity "master-0" None Warning
       ["Node not ready: kubelet stopped posting node status"]
       (Some ["DiskPressure: kubelet has disk pressure"])]
  /\ produced (@check_master_nodes nat (one_master_cluster pressure_then_not_ready)
                 fresh_world)
     = [mkEntity "master-0" None Unhealthy
          ["Node not ready: kubelet stopped posting node status"]
          (Some ["DiskPressure: kubelet has disk pressure"])].
Proof. split; vm_compute; reflexivity. Qed.

(** C3 (the code departs from the claim): an operator whose Degraded
    condition is True, followed in the list by a Progressing condition that
    is True, is reported at level Warning, not Unhealthy; both messages are
    kept. With the two conditions swapped it is reported Unhealthy. *)
Theorem C3_progressing_after_degraded_reports_warning :
  produced (@check_critical_operators nat
              (one_operator_cluster degraded_then_progressing) fresh_world)
  = [mkEntity "etcd" None Warning
       ["raft instability"; "Operator is progressing: rolling out revision 7"]
       None]
  /\ produced (@check_critical_operators nat
                 (one_operator_cluster progressing_then_degraded) fresh_world)
     = [mkEntity "etcd" None Unhealthy
          ["Operator is progressing: rolling out revision 7"; "raft instability"]
          None].
Proof. split; vm_compute; reflexivity. Qed.

(* ================================================================= *)
(** ** Master nodes: the empty list *)

(** C4 (counterexample): on a cluster without master nodes the probe
    returns the empty list, so its result is not a single Warning
    entity. *)
Lemma C4_no_master_nodes_counterexample :
  fst (@check_master_nodes nat no_master_cluster fresh_world) = Val []
  /\ ~ (exists e, fst (@check_master_nodes nat no_master_cluster fresh_world) = Val [e]
                  /\ status e = Warning).
Proof.
  split; [reflexivity|].
  intros [e [Heq _]]. vm_compute in Heq. discriminate Heq.
Qed.

(** C4 (amended): when the node query succeeds with zero master nodes, the
    probe returns the empty collection and prints the line
    "Warning: No master nodes found" on the console; it emits neither a
    placeholder entity nor an Error-level result. *)
Theorem C4_no_master_nodes_prints_warning {St : Type} `{Cluster St}
    (w : World St) (s' : St) :
  nodes_get "node-role.kubernetes.io/master" (server w) = (inr [], s') ->
  check_master_nodes w
  = (Val [],
     log_console "[yellow]Warning: No master nodes found[/yellow]"
       (with_server s' w)).
Proof.
  intros Hget.
  unfold check_master_nodes, try_except, bind, call.
  rewrite Hget. reflexivity.
Qed.

Lemma C4_no_master_nodes_witness :
  @check_master_nodes nat no_master_cluster fresh_world
  = (Val [], mkWorld 1 ["[yellow]Warning: No master nodes found[/yellow]"] []).
Proof.
  apply (@C4_no_master_nodes_prints_warning nat no_master_cluster fresh_world 1).
  reflexivity.
Defined.

(* ================================================================= *)
(** ** The pod fetcher *)

Lemma with_server_same {St : Type} (w : World St) : with_server (server w) w = w.
Proof. destruct w; reflexivity. Qed.

Lemma with_server_twice {St : Type} (s s' : St) (w : World St) :
  with_server s (with_server s' w) = with_server s w.
Proof. reflexivity. Qed.

Lemma is_empty_true {A : Type} (l : list A) : is_empty l = true <-> l = [].
Proof. destruct l; simpl; split; intros; congruence. Qed.

Lemma is_empty_false {A : Type} (l : list A) : is_empty l = false <-> l <> [].
Proof. destruct l; simpl; split; intros; congruence. Qed.

Section PodFetcherFacts.
Context {St : Type} `{Cluster St}.

Lemma pods_more_pages_done (fuel : nat) (ns : string) (sel : option string)
    (prev : Page Pod) (pods : list Pod) (w : World St) :
  truthy (metadata_continue prev) = false ->
  pods_more_pages fuel ns sel prev pods w = (Val pods, w).
Proof. intros Hlast. destruct fuel; simpl; rewrite Hlast; reflexivity. Qed.

Lemma pods_more_pages_step (fuel : nat) (ns : string) (sel : option string)
    (prev p : Page Pod) (pods : list Pod) (w : World St) (s' : St) :
  truthy (metadata_continue prev) = true ->
  list_namespaced_pod (mkPodListRequest ns sel 100 (metadata_continue prev))
    (server w) = (inr (Some p), s') ->
  pods_more_pages (S fuel) ns sel prev pods w
  = if is_empty (items p) then (Val pods, with_server s' w)
    else pods_more_pages fuel ns sel p (pods ++ items p) (with_server s' w).
Proof.
  intros Hmore Hcall. simpl. rewrite Hmore.
  unfold bind, call. rewrite Hcall.
  destruct (is_empty (items p)); reflexivity.
Qed.

(** The loop stops at the first page without items. *)
Lemma pods_more_pages_kept (ns : string) (sel : option string)
    (rest : list (Page Pod)) :
  forall fuel prev pods w s_end,
    pod_pages_follow ns sel prev (server w) rest s_end ->
    length rest <= fuel ->
    exists w',
      pods_more_pages fuel ns sel prev pods w
      = (Val (pods ++ all_items (pages_until_empty rest)), w').
Proof.
  induction rest as [|p rest IH]; intros fuel prev pods w s_end Hchain Hfuel.
  - destruct Hchain as [Hlast _]. exists w.
    rewrite pods_more_pages_done by assumption.
    unfold all_items; simpl. now rewrite app_nil_r.
  - destruct Hchain as [Hmore [s' [Hcall Hrest]]].
    destruct fuel as [|fuel]; [simpl in Hfuel; lia|].
    rewrite (pods_more_pages_step _ _ _ _ _ _ _ _ Hmore Hcall).
    simpl. destruct (is_empty (items p)) eqn:Hp.
    + eexists. unfold all_items; simpl. now rewrite app_nil_r.
    + destruct (IH fuel p (pods ++ items p) (with_server s' w) s_end) as [w' Hrun].
      * exact Hrest.
      * simpl in Hfuel. lia.
      * exists w'. rewrite Hrun. unfold all_items; simpl. now rewrite app_assoc.
Qed.

(** When no later page is without items, the loop walks the whole chain. *)
Lemma pods_more_pages_all (ns : string) (sel : option string)
    (rest : list (Page Pod)) :
  forall fuel prev pods w s_end,
    pod_pages_follow ns sel prev (server w) rest s_end ->
    (forall p, In p rest -> items p <> []) ->
    length rest <= fuel ->
    pods_more_pages fuel ns sel prev pods w
    = (Val (pods ++ all_items rest), with_server s_end w).
Proof.
  induction rest as [|p rest IH]; intros fuel prev pods w s_end Hchain Hne Hfuel.
  - destruct Hchain as [Hlast ->].
    rewrite pods_more_pages_done by assumption.
    unfold all_items; simpl. now rewrite app_nil_r, with_server_same.
  - destruct Hchain as [Hmore [s' [Hcall Hrest]]].
    destruct fuel as [|fuel]; [simpl in Hfuel; lia|].
    rewrite (pods_more_pages_step _ _ _ _ _ _ _ _ Hmore Hcall).
    assert (Hp : is_empty (items p) = false)
      by (apply is_empty_false, Hne; now left).
    rewrite Hp.
    rewrite (IH fuel p (pods ++ items p) (with_server s' w) s_end).
    + unfold all_items; simpl. now rewrite app_assoc.
    + exact Hrest.
    + intros q Hq. apply Hne. now right.
    + simpl in Hfuel. lia.
Qed.

(** An exception of the body becomes the empty list, after one console
    line that names it, when the console takes that line; when it does
    not, the [MarkupError] of the print leaves the fetcher. *)
Lemma get_paginated_pods_handler (fuel : nat) (ns : string)
    (sel : option string) (w w1 : World St) (e : Exn) :
  get_paginated_pods_body fuel ns sel w = (Exc e, w1) ->
  _get_paginated_pods fuel ns sel w
  = match markup_error w1 (pods_error_line e) with
    | None => (Val [], log_console (pods_error_line e) w1)
    | Some err => (Exc (PyException err), w1)
    end.
Proof.
  intros Hbody. unfold _get_paginated_pods, try_except. rewrite Hbody.
  unfold bind, console_print_markup, ret, pods_error_line.
  destruct e; cbn [str];
    match goal with |- context [markup_error w1 ?m] =>
      destruct (markup_error w1 m) end; reflexivity.
Qed.


Lemma get_paginated_pods_returns (fuel : nat) (ns : string)
    (sel : option string) (w w1 : World St) (pods : list Pod) :
  get_paginated_pods_body fuel ns sel w = (Val pods, w1) ->
  _get_paginated_pods fuel ns sel w = (Val pods, w1).
Proof.
  intros Hbody. unfold _get_paginated_pods, try_except. now rewrite Hbody.
Qed.

(** The only exception that leaves the fetcher is the [MarkupError] of
    its own error line. *)
Lemma get_paginated_pods_raises_only_markup (fuel : nat) (ns : string)
    (sel : option string) (w w' : World St) (x : Exn) :
  _get_paginated_pods fuel ns sel w = (Exc x, w') ->
  exists e err,
    get_paginated_pods_body fuel ns sel w = (Exc e, w')
    /\ markup_error w' (pods_error_line e) = Some err
    /\ x = PyException err.
Proof.
  destruct (get_paginated_pods_body fuel ns sel w) as [[pods|e|] w1] eqn:Hbody.
  - rewrite (get_paginated_pods_returns _ _ _ _ _ _ Hbody). discriminate.
  - rewrite (get_paginated_pods_handler _ _ _ _ _ _ Hbody).
    destruct (markup_error w1 (pods_error_line e)) as [err|] eqn:Hm;
      [|discriminate].
    intros Heq. injection Heq as <- <-. now exists e, err.
  - unfold _get_paginated_pods, try_except. rewrite Hbody. discriminate.
Qed.
End PodFetcherFacts.

(** A raise at the very first request is a raise of the body. *)
Lemma get_paginated_pods_body_first_raise {St : Type} `{Cluster St}
    (fuel : nat) (ns : string) (sel : option string) (w : World St)
    (e : Exn) (s' : St) :
  list_namespaced_pod (mkPodListRequest ns sel 100 None) (server w) = (inl e, s') ->
  get_paginated_pods_body fuel ns sel w = (Exc e, with_server s' w).
Proof.
  intros Hcall. unfold get_paginated_pods_body, bind, call. now rewrite Hcall.
Qed.
(* ================================================================= *)
(** ** The generic fetcher *)

Section GenericFetcherFacts.
Context {St Item : Type}.
Variable api_call : Kwargs -> St -> (Exn + Page Item) * St.

(** Without a failure the inner loop walks the whole chain. *)
Lemma response_more_pages_all (rest : list (Page Item)) :
  forall fuel kwargs prev items_ w s_end,
    kw_limit kwargs = Some 50 ->
    response_pages_follow api_call prev (server w) rest s_end ->
    length rest <= fuel ->
    exists kwargs',
      response_more_pages api_call fuel kwargs prev items_ w
      = (Val (items_ ++ all_items rest), kwargs', with_server s_end w).
Proof.
  induction rest as [|p rest IH]; intros fuel kwargs prev items_ w s_end Hlim Hchain Hfuel.
  - destruct Hchain as [Hlast ->]. exists kwargs.
    destruct fuel; simpl; rewrite Hlast;
      unfold all_items; simpl; now rewrite app_nil_r, with_server_same.
  - destruct Hchain as [Hmore [s' [Hcall Hrest]]].
    destruct fuel as [|fuel]; [simpl in Hfuel; lia|].
    simpl. rewrite Hmore, Hlim, Hcall.
    destruct (IH fuel (mkKwargs (Some 50) (metadata_continue prev)) p
                (items_ ++ items p) (with_server s' w) s_end) as [kwargs' Hrun].
    + reflexivity.
    + exact Hrest.
    + simpl in Hfuel. lia.
    + exists kwargs'. rewrite Hrun. unfold all_items; simpl.
      now rewrite app_assoc.
Qed.

(** A continuation request that raises ends the attempt; [kwargs] keeps
    the token of the request that failed. *)
Lemma response_more_pages_fails (rest : list (Page Item)) :
  forall fuel kwargs prev items_ w e s_f,
    kw_limit kwargs = Some 50 ->
    response_pages_then_fail api_call prev (server w) rest e s_f ->
    length rest < fuel ->
    response_more_pages api_call fuel kwargs prev items_ w
    = (Exc e, mkKwargs (Some 50) (metadata_continue (last_page prev rest)),
       with_server s_f w).
Proof.
  induction rest as [|p rest IH]; intros fuel kwargs prev items_ w e s_f
    Hlim [Hmore Hchain] Hfuel;
    (destruct fuel as [|fuel]; [cbn [length] in Hfuel; lia|]);
    cbn [response_more_pages]; rewrite Hmore, Hlim.
  - rewrite Hchain. reflexivity.
  - destruct Hchain as [s' [Hcall Hrest]]. rewrite Hcall.
    rewrite (IH fuel (mkKwargs (Some 50) (metadata_continue prev)) p
               (items_ ++ items p) (with_server s' w) e s_f eq_refl Hrest)
      by (cbn [length] in Hfuel; lia).
    reflexivity.
Qed.

Lemma response_attempt_fails (fuel : nat) (kwargs : Kwargs) (w : World St)
    (e : Exn) (tok : option string) (s' : St) :
  attempt_fails api_call fuel kwargs (server w) e tok s' ->
  response_attempt api_call fuel kwargs w
  = (Exc e, mkKwargs (Some 50) tok, with_server s' w).
Proof.
  unfold response_attempt.
  intros [[Hcall ->] | [first [s1 [rest [Hcall [Hfail [Hfuel ->]]]]]]];
    rewrite Hcall; [reflexivity|].
  now rewrite (response_more_pages_fails rest fuel
                 (mkKwargs (Some 50) (kw_continue kwargs)) first (items first)
                 (with_server s1 w) e s' eq_refl Hfail Hfuel).
Qed.

(** One turn of the retry loop after a failed attempt, by what the console
    makes of the warning line. *)
Lemma retry_loop_failed_attempt (budget fuel retry_count : nat)
    (last_error : option Exn) (kwargs kwargs1 : Kwargs) (w w1 : World St) (e : Exn) :
  retry_count + 1 < 3 ->
  response_attempt api_call fuel kwargs w = (Exc e, kwargs1, w1) ->
  markup_error w1 (attempt_warning retry_count e) = None ->
  retry_loop api_call (S budget) fuel retry_count last_error kwargs w
  = retry_loop api_call budget fuel (retry_count + 1) (Some e) kwargs1
      (log_sleep 1 (log_console (attempt_warning retry_count e) w1)).
Proof.
  intros Hlt Hatt Hok. cbn [retry_loop]. rewrite Hatt.
  assert (H1 : (retry_count <? max_retries)%nat = true)
    by (apply Nat.ltb_lt; unfold max_retries; lia).
  assert (H2 : (retry_count + 1 <? max_retries)%nat = true)
    by (apply Nat.ltb_lt; unfold max_retries; lia).
  unfold attempt_warning in Hok. rewrite H1, Hok, H2. reflexivity.
Qed.


(** The print of the [except] block raises out of the loop: no retry, no
    sleep, nothing printed. *)
Lemma retry_loop_unprintable (budget fuel retry_count : nat)
    (last_error : option Exn) (kwargs kwargs1 : Kwargs) (w w1 : World St)
    (e : Exn) (err : string) :
  retry_count < 3 ->
  response_attempt api_call fuel kwargs w = (Exc e, kwargs1, w1) ->
  markup_error w1 (attempt_warning retry_count e) = Some err ->
  retry_loop api_call (S budget) fuel retry_count last_error kwargs w
  = (Exc (PyException err), kwargs1, w1).
Proof.
  intros Hlt Hatt Hbad. cbn [retry_loop]. rewrite Hatt.
  assert (H1 : (retry_count <? max_retries)%nat = true)
    by (apply Nat.ltb_lt; unfold max_retries; lia).
  unfold attempt_warning in Hbad. rewrite H1, Hbad. reflexivity.
Qed.

(** The first request fails [errs] times, fewer than the attempts left,
    the console takes the warnings, and the pages are then served. *)
Lemma retry_loop_first_failures (errs : list Exn) :
  forall budget fuel retry_count last_error kwargs w s1 pages s_end,
    first_request_fails api_call (kw_continue kwargs) (server w) errs s1 ->
    retry_count + length errs < 3 ->
    length errs < budget ->
    prints w (attempt_warnings retry_count errs) ->
    response_pages_served api_call kwargs s1 pages s_end ->
    length pages <= S fuel ->
    exists kwargs',
      retry_loop api_call budget fuel retry_count last_error kwargs w
      = (Val (all_items pages), kwargs',
         Build_World s_end (console w ++ attempt_warnings retry_count errs)
           (slept w ++ repeat 1 (length errs)) (markup_error w)).
Proof.
  induction errs as [|e errs IH];
    intros budget fuel retry_count last_error kwargs w s1 pages s_end
           Hfails Hcount Hbudget Hprints Hserved Hfuel;
    (destruct budget as [|budget]; [cbn [length] in Hbudget; lia|]).
  - cbn [retry_loop].
    assert (Hlt : (retry_count <? max_retries)%nat = true)
      by (apply Nat.ltb_lt; unfold max_retries; cbn [length] in Hcount; lia).
    rewrite Hlt.
    simpl in Hfails. subst s1.
    destruct pages as [|first rest]; [destruct Hserved|].
    destruct Hserved as [s' [Hcall Hrest]].
    simpl in Hfuel. apply le_S_n in Hfuel.
    destruct (response_more_pages_all rest fuel
                (mkKwargs (Some 50) (kw_continue kwargs)) first (items first)
                (with_server s' w) s_end eq_refl Hrest Hfuel) as [kwargs' Hrun].
    unfold response_attempt. rewrite Hcall, Hrun.
    exists kwargs'. cbn [attempt_warnings length repeat].
    rewrite !app_nil_r. reflexivity.
  - destruct Hfails as [s' [Hcall Hfails]].
    cbn [length] in Hcount, Hbudget.
    cbn [attempt_warnings] in Hprints. inversion Hprints as [|l ls Hline Hrest]; subst.
    assert (Hatt : response_attempt api_call fuel kwargs w
                   = (Exc e, mkKwargs (Some 50) (kw_continue kwargs),
                      with_server s' w))
      by (unfold response_attempt; now rewrite Hcall).
    rewrite (retry_loop_failed_attempt budget fuel retry_count last_error
               _ _ _ _ _ ltac:(lia) Hatt Hline).
    destruct (IH budget fuel (retry_count + 1) (Some e)
                (mkKwargs (Some 50) (kw_continue kwargs))
                (log_sleep 1 (log_console (attempt_warning retry_count e)
                                (with_server s' w)))
                s1 pages s_end)
      as [kwargs' Hrun];
      [exact Hfails | lia | lia | now rewrite Nat.add_1_r | exact Hserved
      | exact Hfuel |].
    exists kwargs'. rewrite Hrun.
    cbn [console slept markup_error log_sleep log_console with_server
         attempt_warnings length repeat].
    rewrite <- !app_assoc, !Nat.add_1_r. reflexivity.
Qed.

End GenericFetcherFacts.


(* ================================================================= *)
(** ** Pagination and retry: the claims *)

(** C2 (the code departs from the claim): two pages, the request for the
    second page fails once and then succeeds. The fetch returns the items
    of the second page only: the retry starts from the [kwargs] left by the
    failed attempt, which still hold the continuation token, and from a
    fresh [items]. Served without failure, the same pages give all four
    items. *)
Theorem C2_retry_after_later_page_failure_drops_first_page :
  _get_paginated_response flaky_second_page 5 (mkKwargs None None) fresh_world
  = (Val ["pod-3"; "pod-4"],
     mkWorld 3
       ["[yellow]Warning: API call failed, attempt 1 of 3... (connection reset)[/yellow]"]
       [1])
  /\ _get_paginated_response steady_two_pages 5 (mkKwargs None None) fresh_world
     = (Val ["pod-1"; "pod-2"; "pod-3"; "pod-4"], mkWorld 2 [] []).
Proof. split; vm_compute; reflexivity. Qed.

(** C6 (counterexample): a valid chain of three pages whose second page
    has no items but carries a continuation token. The pod fetcher stops at
    that page and returns the first page only. *)
Lemma C6_empty_middle_page_counterexample :
  @pod_pages_served nat gap_cluster "openshift-etcd" None 0 gap_pages 3
  /\ all_items gap_pages = [running_pod "etcd-0"; running_pod "etcd-1"]
  /\ fst (@_get_paginated_pods nat gap_cluster 5 "openshift-etcd" None fresh_world)
     = Val [running_pod "etcd-0"]
  /\ fst (@_get_paginated_pods nat gap_cluster 5 "openshift-etcd" None fresh_world)
     <> Val (all_items gap_pages).
Proof.
  split.
  - simpl. eexists. split; [reflexivity|].
    split; [reflexivity|]. eexists. split; [reflexivity|].
    split; [reflexivity|]. eexists. split; [reflexivity|].
    split; reflexivity.
  - split; [reflexivity|]. split; [reflexivity|].
    vm_compute. discriminate.
Qed.

(** C6 (amended): for any chain of pages linked by continuation tokens and
    ended by an empty or absent token, of any length and whatever the page
    sizes, (1) [_get_paginated_pods] returns the items of the first page
    followed by those of the later pages up to the first later page without
    items, which is the concatenation of all pages, in server order,
    whenever no page after the first is without items; (2)
    [_get_paginated_response], when no request fails, returns the
    concatenation of all pages in server order. A single first page without
    items gives the empty list, not an error. *)
Theorem C6_fetchers_concatenate_pages {St Item : Type} `{Cluster St}
    (api_call : Kwargs -> St -> (Exn + Page Item) * St) :
  (forall fuel ns sel w pages s_end,
      pod_pages_served ns sel (server w) pages s_end ->
      length pages <= S fuel ->
      (exists w',
          _get_paginated_pods fuel ns sel w
          = (Val (all_items (kept_pages pages)), w'))
      /\ ((forall p, In p (tl pages) -> items p <> []) ->
          _get_paginated_pods fuel ns sel w
          = (Val (all_items pages), with_server s_end w)))
  /\ (forall fuel kwargs w pages s_end,
         response_pages_served api_call kwargs (server w) pages s_end ->
         length pages <= S fuel ->
         _get_paginated_response api_call fuel kwargs w
         = (Val (all_items pages), with_server s_end w)).
Proof.
  split.
  - intros fuel ns sel w [|first rest] s_end Hserved Hfuel; [destruct Hserved|].
    destruct Hserved as [s' [Hcall Hrest]].
    simpl in Hfuel. apply le_S_n in Hfuel.
    assert (Hbody : forall r w',
      pods_more_pages fuel ns sel first ([] ++ items first) (with_server s' w)
      = (Val r, w') ->
      _get_paginated_pods fuel ns sel w = (Val r, w')).
    { intros r w' Hrun. apply get_paginated_pods_returns.
      unfold get_paginated_pods_body, bind, call. rewrite Hcall. exact Hrun. }
    split.
    + destruct (pods_more_pages_kept ns sel rest fuel first ([] ++ items first)
                  (with_server s' w) s_end Hrest Hfuel) as [w' Hrun].
      exists w'. apply Hbody. exact Hrun.
    + intros Hne. apply Hbody.
      now rewrite (pods_more_pages_all ns sel rest fuel first ([] ++ items first)
                     (with_server s' w) s_end Hrest Hne Hfuel).
  - intros fuel kwargs w [|first rest] s_end Hserved Hfuel; [destruct Hserved|].
    destruct Hserved as [s' [Hcall Hrest]].
    simpl in Hfuel. apply le_S_n in Hfuel.
    destruct (response_more_pages_all api_call rest fuel
                (mkKwargs (Some 50) (kw_continue kwargs)) first (items first)
                (with_server s' w) s_end eq_refl Hrest Hfuel) as [kwargs' Hrun].
    unfold _get_paginated_response, max_retries. simpl.
    unfold response_attempt. rewrite Hcall, Hrun. reflexivity.
Qed.

Lemma C6_fetchers_concatenate_pages_witness :
  @_get_paginated_pods nat full_cluster 1 "openshift-etcd" None fresh_world
  = (Val [running_pod "etcd-0"; running_pod "etcd-1"; running_pod "etcd-2"],
     mkWorld 2 [] [])
  /\ _get_paginated_response steady_two_pages 1 (mkKwargs None None) fresh_world
     = (Val ["pod-1"; "pod-2"; "pod-3"; "pod-4"], mkWorld 2 [] [])
  /\ @_get_paginated_pods nat empty_cluster 0 "openshift-etcd" None fresh_world
     = (Val [], mkWorld 1 [] []).
Proof.
  split; [|split].
  - apply (proj1 (@C6_fetchers_concatenate_pages nat string full_cluster
                    steady_two_pages)
             1 "openshift-etcd" None fresh_world full_pages 2).
    + simpl. eexists. split; [reflexivity|].
      split; [reflexivity|]. eexists. split; [reflexivity|].
      split; reflexivity.
    + simpl. lia.
    + simpl. intros p [<- | []]. discriminate.
  - apply (proj2 (@C6_fetchers_concatenate_pages nat string full_cluster
                    steady_two_pages)
             1 (mkKwargs None None) fresh_world
             [mkPage ["pod-1"; "pod-2"] (Some "page-2");
              mkPage ["pod-3"; "pod-4"] None] 2).
    + simpl. eexists. split; [reflexivity|].
      split; [reflexivity|]. eexists. split; [reflexivity|].
      split; reflexivity.
    + simpl. lia.
  - apply (proj1 (@C6_fetchers_concatenate_pages nat string empty_cluster
                    steady_two_pages)
             0 "openshift-etcd" None fresh_world [mkPage [] None] 1).
    + simpl. eexists. split; [reflexivity|]. split; reflexivity.
    + simpl. lia.
    + simpl. intros p [].
Defined.


(* ================================================================= *)
(** ** Control-plane pods *)

Lemma map_raises_app {A B : Type} (f : A -> Raises B) (xs ys : list A) :
  map_raises f (xs ++ ys)
  = match map_raises f xs with
    | inl e => inl e
    | inr bs =>
        match map_raises f ys with
        | inl e => inl e
        | inr bs' => inr (bs ++ bs')
        end
    end.
Proof.
  induction xs as [|x xs IH]; simpl.
  - destruct (map_raises f ys); reflexivity.
  - destruct (f x) as [e|b]; [reflexivity|]. rewrite IH.
    destruct (map_raises f xs) as [e|bs]; [reflexivity|].
    destruct (map_raises f ys); reflexivity.
Qed.

Lemma map_raises_in {A B : Type} (f : A -> Raises B) (xs : list A) :
  forall bs b,
    map_raises f xs = inr bs ->
    In b bs -> exists x, In x xs /\ f x = inr b.
Proof.
  induction xs as [|x xs IH]; intros bs b Hmap Hin; simpl in Hmap.
  - injection Hmap as <-. destruct Hin.
  - destruct (f x) as [e|b0] eqn:Hx; [discriminate|].
    destruct (map_raises f xs) as [e|bs0]; [discriminate|].
    injection Hmap as <-. destruct Hin as [<- | Hin].
    + exists x. split; [now left | exact Hx].
    + destruct (IH bs0 b eq_refl Hin) as [x' [Hin' Hx']].
      exists x'. split; [now right | exact Hx'].
Qed.

Lemma map_raises_length {A B : Type} (f : A -> Raises B) (xs : list A) :
  forall bs, map_raises f xs = inr bs -> length bs = length xs.
Proof.
  induction xs as [|x xs IH]; intros bs Hmap; simpl in Hmap.
  - now injection Hmap as <-.
  - destruct (f x); [discriminate|].
    destruct (map_raises f xs) as [|bs0]; [discriminate|].
    injection Hmap as <-. simpl. f_equal. now apply IH.
Qed.

(** A loop none of whose steps raises runs to its end. *)
Lemma map_raises_total {A B : Type} (f : A -> Raises B) (xs : list A) :
  (forall x, In x xs -> exists b, f x = inr b) ->
  exists bs, map_raises f xs = inr bs.
Proof.
  induction xs as [|x xs IH]; intros Hall; simpl.
  - now exists [].
  - destruct (Hall x (or_introl eq_refl)) as [b ->].
    destruct IH as [bs ->]; [intros y Hy; apply Hall; now right|].
    now exists (b :: bs).
Qed.

Lemma namespace_pods_loop_spec (ns : string) (pods : list Pod) :
  forall found results,
    namespace_pods_loop ns pods found results
    = match map_raises (control_plane_pod_status ns) (control_plane_pods pods) with
      | inl e => inl e
      | inr records =>
          inr (found || negb (is_empty (control_plane_pods pods)),
               results ++ records)
      end.
Proof.
  unfold control_plane_pods.
  induction pods as [|pod pods IH]; intros found results; simpl.
  - now rewrite orb_false_r, app_nil_r.
  - destruct (is_control_plane_pod (pod_name pod)); simpl.
    + destruct (control_plane_pod_status ns pod) as [e|record]; [reflexivity|].
      rewrite IH.
      destruct (map_raises _ _) as [e|records]; [reflexivity|].
      rewrite orb_true_r, <- app_assoc. reflexivity.
    + apply IH.
Qed.

Lemma namespace_entries_nonempty (ns : string) (pods : list Pod)
    (entries : list EntityStatus) :
  namespace_entries ns pods = inr entries -> entries <> [].
Proof.
  unfold namespace_entries.
  destruct (is_empty pods); [intros [= <-]; discriminate|].
  destruct (map_raises _ _) as [e|[|record records]];
    [discriminate | |]; intros [= <-]; discriminate.
Qed.

Lemma container_checks_status (containers : list ContainerStatus) :
  forall entry,
    status entry <> Warning ->
    status (fold_left container_check containers entry) <> Warning.
Proof.
  induction containers as [|c containers IH]; intros entry Hst; simpl.
  - exact Hst.
  - apply IH. unfold container_check. destruct (negb (ready c)); simpl;
      [discriminate | exact Hst].
Qed.

Lemma control_plane_pod_status_not_warning (ns : string) (pod : Pod)
    (record : EntityStatus) :
  control_plane_pod_status ns pod = inr record -> status record <> Warning.
Proof.
  unfold control_plane_pod_status.
  destruct (pod_status pod) as [| |st]; [intros [= <-]; discriminate | discriminate |].
  destruct (negb (phase st =? "Running")); [intros [= <-]; discriminate|].
  destruct (container_statuses st) as [| |containers];
    [intros [= <-]; discriminate | discriminate |].
  intros [= <-]. apply container_checks_status. simpl. discriminate.
Qed.

(** A pod whose checks pass gets its record. *)
Lemma control_plane_pod_status_returns (ns : string) (pod : Pod) :
  pod_checks_pass pod -> exists record, control_plane_pod_status ns pod = inr record.
Proof.
  unfold pod_checks_pass, control_plane_pod_status.
  destruct (pod_status pod) as [| |st]; [eexists; reflexivity | intros [] |].
  destruct (phase st =? "Running") eqn:Hphase; [|eexists; reflexivity].
  apply String.eqb_eq in Hphase. intros Hpass. specialize (Hpass Hphase).
  simpl. destruct (container_statuses st); [eexists; reflexivity | now contradiction Hpass
                                           | eexists; reflexivity].
Qed.

(** Where a "no pods" placeholder can come from. *)
Lemma no_pods_placeholder_origin (ns ns' : string) (pods : list Pod)
    (entries : list EntityStatus) :
  namespace_entries ns' pods = inr entries ->
  In (no_pods_placeholder ns) entries ->
  ns' = ns /\ pods = [].
Proof.
  unfold namespace_entries.
  destruct (is_empty pods) eqn:Hpods.
  - intros [= <-] [Heq | []]. apply is_empty_true in Hpods.
    injection Heq as _ Hns _. now split.
  - destruct (map_raises _ _) as [e|records] eqn:Hmap; [discriminate|].
    destruct records as [|record records].
    + intros [= <-] [Heq | []]. injection Heq as Hname _. discriminate Hname.
    + intros [= <-] Hin.
      destruct (map_raises_in _ _ _ _ Hmap Hin) as [pod [_ Hpod]].
      exfalso. now apply (control_plane_pod_status_not_warning ns' pod _ Hpod).
Qed.

(** Where a "no control plane pods" placeholder can come from. *)
Lemma no_control_plane_pods_placeholder_origin (ns ns' : string) (pods : list Pod)
    (entries : list EntityStatus) :
  namespace_entries ns' pods = inr entries ->
  In (no_control_plane_pods_placeholder ns) entries ->
  ns' = ns /\ pods <> [].
Proof.
  unfold namespace_entries.
  destruct (is_empty pods) eqn:Hpods.
  - intros [= <-] [Heq | []]. injection Heq as Hname _. discriminate Hname.
  - apply is_empty_false in Hpods.
    destruct (map_raises _ _) as [e|records] eqn:Hmap; [discriminate|].
    destruct records as [|record records].
    + intros [= <-] [Heq | []]. injection Heq as _ Hns _. now split.
    + intros [= <-] Hin.
      destruct (map_raises_in _ _ _ _ Hmap Hin) as [pod [_ Hpod]].
      exfalso. now apply (control_plane_pod_status_not_warning ns' pod _ Hpod).
Qed.

(** The entries of a run come from the namespaces fetched. *)
Lemma fetched_entries_in (fetched : list (string * list Pod)) :
  forall entries x,
    fetched_entries fetched = inr entries ->
    (In x entries <->
     exists ns pods es,
       In (ns, pods) fetched /\ namespace_entries ns pods = inr es /\ In x es).
Proof.
  induction fetched as [|[ns pods] fetched IH]; intros entries x Hent;
    simpl in Hent.
  - injection Hent as <-. split; [intros [] | intros [? [? [? [[] _]]]]].
  - destruct (namespace_entries ns pods) as [e|es] eqn:Hns; [discriminate|].
    destruct (fetched_entries fetched) as [e|more]; [discriminate|].
    injection Hent as <-. rewrite in_app_iff, (IH more x eq_refl). split.
    + intros [Hin | [ns' [pods' [es' [Hin [Hns' Hx]]]]]].
      * exists ns, pods, es. repeat split; [now left | assumption..].
      * exists ns', pods', es'. repeat split; [now right | assumption..].
    + intros [ns' [pods' [es' [[Heq | Hin] [Hns' Hx]]]]].
      * injection Heq as <- <-. left. congruence.
      * right. exists ns', pods', es'. now repeat split.
Qed.

(** When the checks of every control-plane pod pass, the entries exist. *)
Lemma fetched_entries_total (fetched : list (string * list Pod)) :
  (forall ns pods pod,
      In (ns, pods) fetched -> In pod pods ->
      is_control_plane_pod (pod_name pod) = true -> pod_checks_pass pod) ->
  exists entries, fetched_entries fetched = inr entries.
Proof.
  induction fetched as [|[ns pods] fetched IH]; intros Hpass; simpl.
  - now exists [].
  - assert (Hns : exists es, namespace_entries ns pods = inr es).
    { unfold namespace_entries. destruct (is_empty pods); [eexists; reflexivity|].
      destruct (map_raises_total (control_plane_pod_status ns)
                  (control_plane_pods pods)) as [records ->].
      - intros pod Hin. unfold control_plane_pods in Hin.
        apply filter_In in Hin. destruct Hin as [Hin Hcp].
        apply control_plane_pod_status_returns.
        apply (Hpass ns pods pod); [now left | assumption..].
      - destruct records; eexists; reflexivity. }
    destruct Hns as [es ->].
    destruct IH as [more ->].
    + intros ns' pods' pod Hin. apply (Hpass ns' pods' pod). now right.
    + eexists; reflexivity.
Qed.

Lemma unique_key_value {A B : Type} (l : list (A * B)) (k : A) (v1 v2 : B) :
  NoDup (map fst l) -> In (k, v1) l -> In (k, v2) l -> v1 = v2.
Proof.
  induction l as [|[k0 v0] l IH]; intros Hnd H1 H2; [destruct H1|].
  simpl in Hnd. inversion Hnd as [|? ? Hnotin Hnd']; subst.
  destruct H1 as [H1 | H1], H2 as [H2 | H2].
  - congruence.
  - injection H1 as -> ->. exfalso. apply Hnotin.
    apply in_map_iff. now exists (k, v2).
  - injection H2 as -> ->. exfalso. apply Hnotin.
    apply in_map_iff. now exists (k, v1).
  - now apply IH.
Qed.

Lemma critical_namespaces_distinct : NoDup critical_namespaces.
Proof.
  unfold critical_namespaces.
  repeat (constructor; [simpl; intuition discriminate|]).
  constructor.
Qed.

Section ControlPlaneFacts.
Context {St : Type} `{Cluster St}.

Lemma namespace_step_entries (fuel : nat) (results : list EntityStatus)
    (ns : string) (w w' : World St) (pods : list Pod) :
  _get_paginated_pods fuel ns None w = (Val pods, w') ->
  namespace_step fuel results ns w
  = match namespace_entries ns pods with
    | inr entries => (Val (results ++ entries), w')
    | inl e => (Exc e, w')
    end.
Proof.
  intros Hfetch. unfold namespace_step, bind. rewrite Hfetch.
  unfold namespace_entries.
  destruct (is_empty pods); [reflexivity|].
  rewrite namespace_pods_loop_spec.
  destruct (map_raises _ _) as [e|records] eqn:Hmap; [reflexivity|].
  unfold lift_raises, ret.
  destruct records as [|record records].
  - assert (Hkept : control_plane_pods pods = []).
    { apply map_raises_length in Hmap. now destruct (control_plane_pods pods). }
    rewrite Hkept. simpl. now rewrite app_nil_r.
  - assert (Hkept : is_empty (control_plane_pods pods) = false).
    { apply map_raises_length in Hmap. now destruct (control_plane_pods pods). }
    rewrite Hkept. reflexivity.
Qed.

(** A run of the loop over the namespaces that returns is its fetches
    followed by the derivation of the entries, and conversely. *)
Lemma namespaces_loop_fetch (fuel : nat) (namespaces : list string) :
  forall results w fetched w' entries,
    fetch_namespaces fuel namespaces w = (Val fetched, w') ->
    fetched_entries fetched = inr entries ->
    namespaces_loop fuel namespaces results w = (Val (results ++ entries), w').
Proof.
  induction namespaces as [|ns rest IH]; intros results w fetched w' entries
    Hfetch Hent; simpl in Hfetch |- *.
  - injection Hfetch as <- <-. injection Hent as <-.
    unfold ret. now rewrite app_nil_r.
  - unfold bind in Hfetch |- *.
    destruct (_get_paginated_pods fuel ns None w) as [[pods|e|] w1] eqn:Hpods;
      try discriminate Hfetch.
    destruct (fetch_namespaces fuel rest w1) as [[fetched'|e|] w2] eqn:Hrest;
      try discriminate Hfetch.
    injection Hfetch as <- <-. simpl in Hent.
    rewrite (namespace_step_entries _ _ _ _ _ _ Hpods).
    destruct (namespace_entries ns pods) as [e|es]; [discriminate|].
    destruct (fetched_entries fetched') as [e|more] eqn:Hmore; [discriminate|].
    injection Hent as <-.
    rewrite (IH (results ++ es) w1 fetched' w2 more Hrest Hmore).
    now rewrite <- app_assoc.
Qed.

Lemma namespaces_loop_returns (fuel : nat) (namespaces : list string) :
  forall results w r w',
    namespaces_loop fuel namespaces results w = (Val r, w') ->
    exists fetched entries,
      fetch_namespaces fuel namespaces w = (Val fetched, w')
      /\ fetched_entries fetched = inr entries
      /\ r = results ++ entries.
Proof.
  induction namespaces as [|ns rest IH]; intros results w r w' Hrun;
    simpl in Hrun |- *.
  - injection Hrun as <- <-. exists [], []. now rewrite app_nil_r.
  - unfold bind in Hrun |- *.
    destruct (_get_paginated_pods fuel ns None w) as [[pods|e|] w1] eqn:Hpods;
      try (unfold namespace_step, bind in Hrun; rewrite Hpods in Hrun;
           discriminate Hrun).
    rewrite (namespace_step_entries _ _ _ _ _ _ Hpods) in Hrun.
    destruct (namespace_entries ns pods) as [e|es] eqn:Hns; [discriminate Hrun|].
    destruct (IH _ _ _ _ Hrun) as [fetched [entries [Hfetch [Hent ->]]]].
    exists ((ns, pods) :: fetched), (es ++ entries).
    rewrite Hfetch. simpl. rewrite Hns, Hent.
    now rewrite <- app_assoc.
Qed.

Lemma fetch_namespaces_keys (fuel : nat) (namespaces : list string) :
  forall w fetched w',
    fetch_namespaces fuel namespaces w = (Val fetched, w') ->
    map fst fetched = namespaces.
Proof.
  induction namespaces as [|ns rest IH]; intros w fetched w' Hrun; simpl in Hrun.
  - injection Hrun as <- _. reflexivity.
  - unfold bind in Hrun.
    destruct (_get_paginated_pods fuel ns None w) as [[pods|e|] w1];
      try discriminate Hrun.
    destruct (fetch_namespaces fuel rest w1) as [[fetched'|e|] w2] eqn:Hrest;
      try discriminate Hrun.
    injection Hrun as <- _. simpl. f_equal. now apply (IH w1 fetched' w2).
Qed.

Lemma check_control_plane_pods_fetch (fuel : nat) (w w' : World St)
    (fetched : list (string * list Pod)) (entries : list EntityStatus) :
  fetch_namespaces fuel critical_namespaces w = (Val fetched, w') ->
  fetched_entries fetched = inr entries ->
  check_control_plane_pods fuel w = (Val entries, w').
Proof.
  intros Hfetch Hent.
  pose proof (fetch_namespaces_keys _ _ _ _ _ Hfetch) as Hkeys.
  unfold check_control_plane_pods, try_except, bind.
  rewrite (namespaces_loop_fetch _ _ _ _ _ _ _ Hfetch Hent). simpl.
  destruct fetched as [|[ns pods] fetched]; [discriminate Hkeys|].
  simpl in Hent.
  destruct (namespace_entries ns pods) as [e|es] eqn:Hns; [discriminate|].
  destruct (fetched_entries fetched) as [e|more]; [discriminate|].
  injection Hent as <-.
  apply namespace_entries_nonempty in Hns.
  destruct es; [now contradiction Hns | reflexivity].
Qed.
End ControlPlaneFacts.
(** C8 (counterexample): [openshift-etcd] yields no pod and every other
    namespace one control-plane pod that is running and has no container
    statuses set. The loop over the containers of that pod raises, the
    handler of the probe returns its single Error entity, and the result
    holds no "no pods" placeholder for [openshift-etcd]. *)
Lemma C8_unset_container_statuses_counterexample :
  fst (@_get_paginated_pods nat unset_statuses_cluster 0 "openshift-etcd" None
         fresh_world) = Val []
  /\ @check_control_plane_pods nat unset_statuses_cluster 0 fresh_world
     = (Val [mkEntity "unknown" (Some "unknown") Error
               ["'NoneType' object is not iterable"] None],
        mkWorld 2
          ["[red]Error checking control plane pods: 'NoneType' object is not iterable[/red]"]
          [])
  /\ ~ In (no_pods_placeholder "openshift-etcd")
         (produced (@check_control_plane_pods nat unset_statuses_cluster 0
                      fresh_world)).
Proof.
  split; [reflexivity|]. split; [vm_compute; reflexivity|].
  intros Hin. vm_compute in Hin. destruct Hin as [Heq | []]. discriminate Heq.
Qed.

(** C8 (amended): in a run of the Control-Plane Pods probe in which the
    five fetches return and the checks of no control-plane pod raise (each
    has a status, and each running one its list of container statuses),
    every critical namespace has been fetched; a namespace that yielded no
    pod has its "no pods" placeholder in the result; a namespace that
    yielded pods none of whose names contains etcd, apiserver,
    controller-manager or scheduler has its "no control plane pods"
    placeholder in the result; and for no namespace does the result hold
    both placeholders. *)
Theorem C8_namespace_placeholders {St : Type} `{Cluster St}
    (fuel : nat) (w w' : World St) (fetched : list (string * list Pod)) :
  fetch_namespaces fuel critical_namespaces w = (Val fetched, w') ->
  (forall ns pods pod,
      In (ns, pods) fetched -> In pod pods ->
      is_control_plane_pod (pod_name pod) = true -> pod_checks_pass pod) ->
  exists results,
    check_control_plane_pods fuel w = (Val results, w') /\
    map fst fetched = critical_namespaces /\
    (forall ns pods,
        In (ns, pods) fetched ->
        (pods = [] -> In (no_pods_placeholder ns) results) /\
        (pods <> [] ->
         (forall pod, In pod pods -> is_control_plane_pod (pod_name pod) = false) ->
         In (no_control_plane_pods_placeholder ns) results)) /\
    (forall ns,
        ~ (In (no_pods_placeholder ns) results /\
           In (no_control_plane_pods_placeholder ns) results)).
Proof.
  intros Hfetch Hpass.
  destruct (fetched_entries_total fetched Hpass) as [results Hent].
  exists results.
  pose proof (fetch_namespaces_keys _ _ _ _ _ Hfetch) as Hkeys.
  split; [now apply check_control_plane_pods_fetch with (fetched := fetched)|].
  split; [exact Hkeys|]. split.
  - intros ns pods Hin. split.
    + intros ->. apply (fetched_entries_in fetched results _ Hent).
      exists ns, [], [no_pods_placeholder ns].
      repeat split; [exact Hin | now left].
    + intros Hne Hnone. apply (fetched_entries_in fetched results _ Hent).
      exists ns, pods, [no_control_plane_pods_placeholder ns].
      repeat split; [exact Hin | | now left].
      unfold namespace_entries.
      apply is_empty_false in Hne. rewrite Hne.
      assert (Hkept : control_plane_pods pods = []).
      { clear Hin Hne. unfold control_plane_pods.
        induction pods as [|pod pods IH]; [reflexivity|].
        simpl. rewrite (Hnone pod) by now left.
        apply IH. intros q Hq. apply Hnone. now right. }
      rewrite Hkept. reflexivity.
  - intros ns [Hnone Hnocp].
    apply (fetched_entries_in fetched results _ Hent) in Hnone.
    destruct Hnone as [ns1 [pods1 [es1 [Hin1 [Hns1 Hent1]]]]].
    apply (fetched_entries_in fetched results _ Hent) in Hnocp.
    destruct Hnocp as [ns2 [pods2 [es2 [Hin2 [Hns2 Hent2]]]]].
    destruct (no_pods_placeholder_origin _ _ _ _ Hns1 Hent1) as [-> ->].
    destruct (no_control_plane_pods_placeholder_origin _ _ _ _ Hns2 Hent2)
      as [-> Hne].
    apply Hne. symmetry.
    apply (unique_key_value fetched ns [] pods2); try assumption.
    rewrite Hkeys. apply critical_namespaces_distinct.
Qed.

Lemma C8_namespace_placeholders_witness :
  exists results,
    @check_control_plane_pods nat mixed_cluster 0 fresh_world
    = (Val results, mkWorld 5 [] []) /\
    map fst
      [("openshift-etcd", [running_pod "foo-unrelated"]);
       ("openshift-apiserver", []);
       ("openshift-kube-apiserver", [running_pod "kube-apiserver-master-0"]);
       ("openshift-kube-controller-manager", [running_pod "kube-apiserver-master-0"]);
       ("openshift-kube-scheduler", [running_pod "kube-apiserver-master-0"])]
    = critical_namespaces /\
    (forall ns pods,
        In (ns, pods)
          [("openshift-etcd", [running_pod "foo-unrelated"]);
           ("openshift-apiserver", []);
           ("openshift-kube-apiserver", [running_pod "kube-apiserver-master-0"]);
           ("openshift-kube-controller-manager", [running_pod "kube-apiserver-master-0"]);
           ("openshift-kube-scheduler", [running_pod "kube-apiserver-master-0"])] ->
        (pods = [] -> In (no_pods_placeholder ns) results) /\
        (pods <> [] ->
         (forall pod, In pod pods -> is_control_plane_pod (pod_name pod) = false) ->
         In (no_control_plane_pods_placeholder ns) results)) /\
    (forall ns,
        ~ (In (no_pods_placeholder ns) results /\
           In (no_control_plane_pods_placeholder ns) results)).
Proof.
  apply (@C8_namespace_placeholders nat mixed_cluster 0 fresh_world
           (mkWorld 5 [] [])).
  - vm_compute. reflexivity.
  - intros ns pods pod Hin Hpod _.
    simpl in Hin.
    repeat (destruct Hin as [Heq | Hin];
            [injection Heq as <- <-; simpl in Hpod;
             repeat (destruct Hpod as [<- | Hpod]; [simpl; discriminate|]);
             destruct Hpod|]).
    destruct Hin.
Defined.



(** C10 (the code departs from the claim): every pod list call raises an
    API exception whose text holds the closing tag [[/oops]]. The handler
    of the pod fetcher interpolates that text into its console line; the
    console refuses the line and the print raises, so the fetcher does not
    return the empty list: the error leaves it, and leaves the
    Control-Plane Pods probe as well, whose own handler prints the text
    again. On a cluster whose namespaces are empty the probe returns its
    five placeholders, so the failed fetch is told from the empty
    namespace. With a text the console takes, the code does what the claim
    says. *)
Theorem C10_unprintable_cause_leaves_the_fetcher :
  @_get_paginated_pods nat unprintable_cause_cluster 0 "openshift-etcd" None
    fresh_world
  = (Exc (PyException
            "closing tag '[/oops]' at position 39 doesn't match any open tag"),
     mkWorld 1 [] [])
  /\ @check_control_plane_pods nat unprintable_cause_cluster 0 fresh_world
     = (Exc (PyException
               "closing tag '[/oops]' at position 53 doesn't match any open tag"),
        mkWorld 1 [] [])
  /\ @check_control_plane_pods nat empty_cluster 0 fresh_world
     = (Val (map no_pods_placeholder critical_namespaces), mkWorld 5 [] []).
Proof. repeat split; vm_compute; reflexivity. Qed.

(* ================================================================= *)
(** ** The etcd probe *)

Lemma etcd_operator_conditions_pass (conditions : list Condition) :
  (forall c, In c conditions ->
     (cond_type c = "Degraded" -> cond_status c <> "True") /\
     (cond_type c = "Available" -> cond_status c = "True")) ->
  etcd_operator_conditions conditions = None.
Proof.
  induction conditions as [|c conditions IH]; intros Hpass; [reflexivity|].
  simpl. destruct (Hpass c (or_introl eq_refl)) as [Hdeg Havail].
  assert (H1 : (cond_type c =? "Degraded") && (cond_status c =? "True") = false).
  { destruct (cond_type c =? "Degraded") eqn:Hty; [|reflexivity].
    apply String.eqb_eq in Hty. apply Hdeg in Hty.
    apply String.eqb_neq in Hty. now rewrite Hty. }
  assert (H2 : (cond_type c =? "Available") && negb (cond_status c =? "True") = false).
  { destruct (cond_type c =? "Available") eqn:Hty; [|reflexivity].
    apply String.eqb_eq in Hty. apply Havail in Hty.
    apply String.eqb_eq in Hty. now rewrite Hty. }
  rewrite H1, H2. apply IH. intros c' Hin. apply Hpass. now right.
Qed.

(** C7: when the etcd operator is found and its check passes (no Degraded
    condition is true, no Available condition is other than true) and the
    pod query then yields no pod, the probe returns the Error result with
    the message "No etcd pods found", not an Unhealthy and not a Healthy
    one. *)
Theorem C7_etcd_without_pods_is_error {St : Type} `{Cluster St}
    (fuel : nat) (w w2 : World St) (s1 : St)
    (etcd_operator : ClusterOperator) (others : list ClusterOperator) :
  operators_get (Some "metadata.name=etcd") (server w)
  = (inr (etcd_operator :: others), s1) ->
  etcd_operator_check_passes etcd_operator ->
  _get_paginated_pods fuel "openshift-etcd" (Some "app=etcd") (with_server s1 w)
  = (Val [], w2) ->
  check_etcd_health fuel w
  = (Val (mkAggregate Error (Some "No etcd pods found") None None), w2).
Proof.
  intros Hget Hpass Hpods.
  unfold check_etcd_health, try_except, bind, call. rewrite Hget.
  unfold etcd_operator_check_passes in Hpass.
  destruct (op_conditions etcd_operator) as [| |conditions];
    [|destruct Hpass|rewrite (etcd_operator_conditions_pass _ Hpass)];
    unfold lift_raises, ret; rewrite Hpods; reflexivity.
Qed.

Lemma C7_etcd_without_pods_is_error_witness :
  @check_etcd_health nat etcd_without_pods_cluster 0 fresh_world
  = (Val (mkAggregate Error (Some "No etcd pods found") None None),
     mkWorld 2 [] []).
Proof.
  apply (@C7_etcd_without_pods_is_error nat etcd_without_pods_cluster 0
           fresh_world (mkWorld 2 [] []) 1 available_etcd []).
  - reflexivity.
  - unfold etcd_operator_check_passes. simpl.
    intros c [<- | [<- | [<- | []]]]; simpl; split; intros Hty;
      solve [discriminate Hty | reflexivity | discriminate].
  - reflexivity.
Defined.

(* ================================================================= *)
(** ** The invariant of the status records *)

Lemma node_condition_invariant (st : EntityStatus) (c : Condition) :
  entity_invariant st -> entity_invariant (node_condition st c).
Proof.
  unfold entity_invariant, node_condition. intros Hinv.
  destruct ((cond_type c =? "Ready") && negb (cond_status c =? "True")).
  - cbn [issues status]. intros _. destruct (issues st); discriminate.
  - destruct (str_in (cond_type c) _ && (cond_status c =? "True")).
    + cbn [issues status]. intros [Hst | Hst]; discriminate Hst.
    + exact Hinv.
Qed.

Lemma operator_condition_invariant (st : EntityStatus) (c : Condition) :
  entity_invariant st -> entity_invariant (operator_condition st c).
Proof.
  unfold entity_invariant, operator_condition. intros Hinv.
  repeat match goal with
         | |- context [if ?b then _ else _] => destruct b
         end; cbn [issues status]; try exact Hinv;
    intros _; destruct (issues st); discriminate.
Qed.

Lemma container_check_invariant (st : EntityStatus) (c : ContainerStatus) :
  entity_invariant st -> entity_invariant (container_check st c).
Proof.
  unfold entity_invariant, container_check. intros Hinv.
  destruct (negb (ready c)); [|exact Hinv].
  cbn [issues status]. intros _. destruct (issues st); discriminate.
Qed.

(** A loop whose body keeps the invariant keeps it. *)
Lemma fold_left_invariant {A : Type} (step : EntityStatus -> A -> EntityStatus) :
  (forall st a, entity_invariant st -> entity_invariant (step st a)) ->
  forall l st, entity_invariant st -> entity_invariant (fold_left step l st).
Proof.
  intros Hstep l. induction l as [|a l IH]; intros st Hinv; simpl.
  - exact Hinv.
  - apply IH, Hstep, Hinv.
Qed.

Lemma healthy_invariant (n : string) (ns : option string) (ws : option (list string)) :
  entity_invariant (mkEntity n ns Healthy [] ws).
Proof. intros [Hst | Hst]; discriminate Hst. Qed.

Lemma master_node_status_invariant (node : Node) :
  entity_invariant (master_node_status node).
Proof.
  apply fold_left_invariant; [apply node_condition_invariant|].
  apply healthy_invariant.
Qed.

Lemma critical_operator_status_invariant (operator : ClusterOperator)
    (record : EntityStatus) :
  critical_operator_status operator = inr record -> entity_invariant record.
Proof.
  unfold critical_operator_status.
  destruct (op_conditions operator) as [| |conditions];
    [intros [= <-]; apply healthy_invariant | discriminate |].
  intros [= <-].
  apply fold_left_invariant; [apply operator_condition_invariant|].
  apply healthy_invariant.
Qed.

Lemma control_plane_pod_status_invariant (ns : string) (pod : Pod)
    (record : EntityStatus) :
  control_plane_pod_status ns pod = inr record -> entity_invariant record.
Proof.
  unfold control_plane_pod_status.
  destruct (pod_status pod) as [| |st];
    [intros [= <-] _; discriminate | discriminate |].
  destruct (negb (phase st =? "Running")); [intros [= <-] _; discriminate|].
  destruct (container_statuses st) as [| |containers];
    [intros [= <-]; apply healthy_invariant | discriminate |].
  intros [= <-].
  apply fold_left_invariant; [apply container_check_invariant|].
  apply healthy_invariant.
Qed.

Lemma namespace_entries_invariant (ns : string) (pods : list Pod)
    (entries : list EntityStatus) :
  namespace_entries ns pods = inr entries -> Forall entity_invariant entries.
Proof.
  unfold namespace_entries.
  destruct (is_empty pods).
  - intros [= <-]. constructor; [|constructor]. intros [Hst | Hst]; discriminate Hst.
  - destruct (map_raises _ _) as [e|records] eqn:Hmap; [discriminate|].
    assert (Hrecords : Forall entity_invariant records).
    { apply Forall_forall. intros record Hin.
      destruct (map_raises_in _ _ _ _ Hmap Hin) as [pod [_ Hpod]].
      now apply (control_plane_pod_status_invariant ns pod). }
    destruct records as [|record records]; intros [= <-]; [|exact Hrecords].
    constructor; [|constructor]. intros [Hst | Hst]; discriminate Hst.
Qed.

Lemma fetched_entries_invariant (fetched : list (string * list Pod))
    (entries : list EntityStatus) :
  fetched_entries fetched = inr entries -> Forall entity_invariant entries.
Proof.
  intros Hent. apply Forall_forall. intros x Hin.
  apply (fetched_entries_in fetched entries x Hent) in Hin.
  destruct Hin as [ns [pods [es [_ [Hns Hx]]]]].
  apply namespace_entries_invariant in Hns.
  now apply (proj1 (Forall_forall _ _) Hns).
Qed.

(** What a probe hands to its caller is what its [try] block returns or
    the entity of its handler. *)
Lemma produced_by_probe {St : Type} (body : M St (list EntityStatus))
    (line : Exn -> string) (entity : Exn -> EntityStatus) (w : World St) :
  (forall results w', body w = (Val results, w') ->
                      Forall entity_invariant results) ->
  (forall e, entity_invariant (entity e)) ->
  Forall entity_invariant
    (produced (try_except body
                 (fun e => console_print_markup (line e) ;; ret [entity e]) w)).
Proof.
  intros Hbody Hentity. unfold produced, try_except.
  destruct (body w) as [[results|e|] w'] eqn:Hrun; simpl.
  - now apply (Hbody results w').
  - unfold bind, console_print_markup, ret.
    destruct (markup_error w' (line e)); simpl.
    + constructor.
    + constructor; [apply Hentity | constructor].
  - constructor.
Qed.

(** C9: every status record that the Master Nodes, Critical Operators and
    Control-Plane Pods probes hand to their caller, on any cluster and in
    any world, has a non-empty issues list whenever its level is Unhealthy
    or Error. *)
Theorem C9_issues_nonempty_when_unhealthy_or_error {St : Type} `{Cluster St}
    (fuel : nat) (w : World St) :
  Forall entity_invariant (produced (check_master_nodes w))
  /\ Forall entity_invariant (produced (check_critical_operators w))
  /\ Forall entity_invariant (produced (check_control_plane_pods fuel w)).
Proof.
  split; [|split].
  - unfold check_master_nodes.
    apply (produced_by_probe _ master_nodes_error_line
             (fun e => mkEntity "unknown" None Error [str e] (Some []))).
    + unfold bind, call. intros results w'.
      destruct (nodes_get _ (server w)) as [[e|nodes] s]; [discriminate|].
      destruct (is_empty (map master_node_status nodes)); simpl;
        intros [= <- _]; apply Forall_map, Forall_forall; intros node _;
        apply master_node_status_invariant.
    + intros e _. discriminate.
  - unfold check_critical_operators.
    apply (produced_by_probe _ operators_error_line
             (fun e => mkEntity "unknown" None Error [str e] None)).
    + unfold bind, call. intros results w'.
      destruct (operators_get _ (server w)) as [[e|operators] s]; [discriminate|].
      destruct (map_raises critical_operator_status operators)
        as [e|records] eqn:Hmap; [discriminate|].
      intros [= <- _]. apply Forall_forall. intros record Hin.
      destruct (map_raises_in _ _ _ _ Hmap Hin) as [operator [_ Hop]].
      now apply (critical_operator_status_invariant operator).
    + intros e _. discriminate.
  - unfold check_control_plane_pods.
    apply (produced_by_probe _ control_plane_error_line
             (fun e => mkEntity "unknown" (Some "unknown") Error [str e] None)).
    + unfold bind. intros results w'.
      destruct (namespaces_loop fuel critical_namespaces [] w)
        as [[r|e|] w1] eqn:Hloop; try discriminate.
      destruct (namespaces_loop_returns _ _ _ _ _ _ Hloop)
        as [fetched [entries [_ [Hent ->]]]].
      simpl. destruct entries as [|entry entries]; simpl; intros [= <- _].
      * constructor; [|constructor]. intros _. discriminate.
      * now apply (fetched_entries_invariant fetched).
    + intros e _. discriminate.
Qed.

(* ================================================================= *)
(** ** Master nodes and operators: what the records hold *)

Lemma node_condition_fields (st : EntityStatus) (c : Condition) (ws : list string) :
  warnings st = Some ws ->
  name (node_condition st c) = name st
  /\ namespace (node_condition st c) = namespace st
  /\ issues (node_condition st c) = issues st ++ opt_list (node_issue c)
  /\ warnings (node_condition st c) = Some (ws ++ opt_list (node_warning c))
  /\ status (node_condition st c)
     = match node_level c with Some l => l | None => status st end.
Proof.
  intros Hws. unfold node_condition, node_level, node_issue, node_warning.
  destruct ((cond_type c =? "Ready") && negb (cond_status c =? "True")).
  - cbn. rewrite Hws, app_nil_r. repeat split.
  - destruct (str_in (cond_type c) _ && (cond_status c =? "True")).
    + cbn. rewrite Hws, app_nil_r. repeat split.
    + cbn. rewrite Hws, !app_nil_r. repeat split.
Qed.

Lemma node_conditions_fold (conds : list Condition) :
  forall st ws,
    warnings st = Some ws ->
    name (fold_left node_condition conds st) = name st
    /\ issues (fold_left node_condition conds st)
       = issues st ++ flat_map (fun c => opt_list (node_issue c)) conds
    /\ warnings (fold_left node_condition conds st)
       = Some (ws ++ flat_map (fun c => opt_list (node_warning c)) conds)
    /\ status (fold_left node_condition conds st)
       = fold_left (fun l c => match node_level c with Some l' => l' | None => l end)
           conds (status st).
Proof.
  induction conds as [|c conds IH]; intros st ws Hws.
  - simpl. rewrite !app_nil_r. repeat split. exact Hws.
  - destruct (node_condition_fields st c ws Hws) as [Hn [_ [Hi [Hw Hs]]]].
    destruct (IH (node_condition st c) _ Hw) as [Hn' [Hi' [Hw' Hs']]].
    cbn [fold_left flat_map].
    rewrite Hn', Hi', Hw', Hs', Hn, Hi, Hs, <- !app_assoc. repeat split.
Qed.

(** X1: the record derived for a master node carries the node's name, its
    issues are exactly the "Node not ready" messages of the Ready
    conditions whose status is not 'True', and its warnings exactly the
    messages of the pressure conditions whose status is 'True', each list
    in the order of the conditions. *)
Theorem X1_master_node_messages_exact (node : Node) :
  name (master_node_status node) = node_name node
  /\ issues (master_node_status node)
     = flat_map (fun c => opt_list (node_issue c)) (node_conditions node)
  /\ warnings (master_node_status node)
     = Some (flat_map (fun c => opt_list (node_warning c)) (node_conditions node)).
Proof.
  unfold master_node_status.
  destruct (node_conditions_fold (node_conditions node)
              (mkEntity (node_name node) None Healthy [] (Some [])) []
              eq_refl) as [Hn [Hi [Hw _]]].
  repeat split; assumption.
Qed.

Lemma level_fold_healthy (conds : list Condition) :
  forall level,
    fold_left (fun l c => match node_level c with Some l' => l' | None => l end)
      conds level = Healthy ->
    level = Healthy /\ forall c, In c conds -> node_level c = None.
Proof.
  induction conds as [|c conds IH]; intros level Hfold; simpl in Hfold.
  - split; [exact Hfold | intros c []].
  - apply IH in Hfold. destruct Hfold as [Hstep Hrest].
    assert (Hc : node_level c = None /\ level = Healthy).
    { unfold node_level in *.
      destruct (node_issue c); [discriminate Hstep|].
      destruct (node_warning c); [discriminate Hstep|]. now split. }
    destruct Hc as [Hc Hl]. split; [exact Hl|].
    intros c' [<- | Hin]; [exact Hc | now apply Hrest].
Qed.

Lemma level_fold_clean (conds : list Condition) (level : StatusLevel) :
  (forall c, In c conds -> node_level c = None) ->
  fold_left (fun l c => match node_level c with Some l' => l' | None => l end)
    conds level = level.
Proof.
  induction conds as [|c conds IH]; intros Hclean; simpl; [reflexivity|].
  rewrite (Hclean c) by now left.
  apply IH. intros c' Hin. apply Hclean. now right.
Qed.

Lemma level_fold_no_issue (conds : list Condition) :
  forall level,
    (forall c, In c conds -> node_issue c = None) ->
    (exists c, In c conds /\ node_warning c <> None) ->
    fold_left (fun l c => match node_level c with Some l' => l' | None => l end)
      conds level = Warning.
Proof.
  assert (Hgen : forall cs level,
    (forall c, In c cs -> node_issue c = None) ->
    fold_left (fun l c => match node_level c with Some l' => l' | None => l end)
      cs level
    = if existsb (fun c => match node_warning c with
                           | Some _ => true | None => false end) cs
      then Warning else level).
  { induction cs as [|c cs IH]; intros level Hno; [reflexivity|].
    simpl. rewrite IH by (intros c' Hc'; apply Hno; now right).
    unfold node_level. rewrite (Hno c) by now left.
    destruct (node_warning c); simpl; [|reflexivity].
    now destruct (existsb _ cs). }
  intros level Hno [c [Hin Hw]]. rewrite Hgen by exact Hno.
  assert (Hex : existsb (fun c => match node_warning c with
                                  | Some _ => true | None => false end) conds
                = true).
  { apply existsb_exists. exists c. split; [exact Hin|].
    destruct (node_warning c); [reflexivity | congruence]. }
  now rewrite Hex.
Qed.

(** X2: the level derived for a master node is never Error; it is Healthy
    exactly when no condition is a failed Ready or a true pressure
    condition; and when no Ready condition fails but some pressure
    condition is true, it is Warning and the record has no issue. *)
Theorem X2_master_node_level (node : Node) :
  status (master_node_status node) <> Error
  /\ (status (master_node_status node) = Healthy
      <-> forall c, In c (node_conditions node) ->
            node_issue c = None /\ node_warning c = None)
  /\ ((forall c, In c (node_conditions node) -> node_issue c = None) ->
      (exists c, In c (node_conditions node) /\ node_warning c <> None) ->
      status (master_node_status node) = Warning
      /\ issues (master_node_status node) = []).
Proof.
  unfold master_node_status.
  destruct (node_conditions_fold (node_conditions node)
              (mkEntity (node_name node) None Healthy [] (Some [])) []
              eq_refl) as [_ [Hi [_ Hs]]].
  cbn [status issues app] in Hs, Hi. rewrite Hs. clear Hs.
  split; [|split].
  - assert (Hgen : forall conds l0, l0 <> Error ->
      fold_left (fun l c => match node_level c with Some l' => l' | None => l end)
        conds l0 <> Error).
    { induction conds as [|c conds IH]; intros l0 Hl0; simpl; [exact Hl0|].
      apply IH. unfold node_level.
      destruct (node_issue c); [discriminate|].
      destruct (node_warning c); [discriminate | exact Hl0]. }
    apply Hgen. discriminate.
  - split.
    + intros Hfold. apply level_fold_healthy in Hfold.
      destruct Hfold as [_ Hclean]. intros c Hin.
      specialize (Hclean c Hin). unfold node_level in Hclean.
      destruct (node_issue c); [discriminate|].
      destruct (node_warning c); [discriminate | now split].
    + intros Hclean. apply level_fold_clean. intros c Hin.
      destruct (Hclean c Hin) as [H1 H2]. unfold node_level. now rewrite H1, H2.
  - intros Hno Hex. split.
    + now apply level_fold_no_issue.
    + rewrite Hi. clear Hi Hex.
      induction (node_conditions node) as [|c conds IH]; [reflexivity|].
      simpl. rewrite (Hno c) by now left. simpl.
      apply IH. intros c' Hin. apply Hno. now right.
Qed.

Lemma X2_master_node_level_witness :
  status (master_node_status
            (mkNode "master-1"
               [mkCondition "MemoryPressure" "True" "low memory";
                mkCondition "Ready" "True" "kubelet is posting ready status"]))
  = Warning
  /\ issues (master_node_status
               (mkNode "master-1"
                  [mkCondition "MemoryPressure" "True" "low memory";
                   mkCondition "Ready" "True" "kubelet is posting ready status"]))
     = [].
Proof.
  apply (proj2 (proj2 (X2_master_node_level
                         (mkNode "master-1"
                            [mkCondition "MemoryPressure" "True" "low memory";
                             mkCondition "Ready" "True"
                               "kubelet is posting ready status"])))).
  - intros c [<- | [<- | []]]; reflexivity.
  - exists (mkCondition "MemoryPressure" "True" "low memory").
    split; [now left | discriminate].
Defined.

Lemma operator_condition_fields (st : EntityStatus) (c : Condition) :
  name (operator_condition st c) = name st
  /\ issues (operator_condition st c) = issues st ++ opt_list (operator_message c)
  /\ status (operator_condition st c)
     = match operator_level c with Some l => l | None => status st end.
Proof.
  unfold operator_condition, operator_message, operator_level.
  repeat match goal with
         | |- context [if ?b then _ else _] => destruct b
         end; cbn; rewrite ?app_nil_r; repeat split.
Qed.

Lemma operator_level_message (c : Condition) :
  operator_level c = None <-> operator_message c = None.
Proof.
  unfold operator_level, operator_message.
  repeat match goal with
         | |- context [if ?b then _ else _] => destruct b
         end; split; intros Heq; solve [reflexivity | discriminate Heq].
Qed.

Lemma operator_conditions_fold (conds : list Condition) :
  forall st,
    name (fold_left operator_condition conds st) = name st
    /\ issues (fold_left operator_condition conds st)
       = issues st ++ flat_map (fun c => opt_list (operator_message c)) conds
    /\ (status (fold_left operator_condition conds st) = Healthy
        <-> status st = Healthy /\ forall c, In c conds -> operator_message c = None)
    /\ (status st <> Error ->
        status (fold_left operator_condition conds st) <> Error).
Proof.
  induction conds as [|c conds IH]; intros st.
  - simpl. rewrite app_nil_r.
    split; [reflexivity|]. split; [reflexivity|]. split; [|tauto].
    split; [intros Hst; split; [exact Hst | intros c []] | tauto].
  - destruct (operator_condition_fields st c) as [Hn [Hi Hs]].
    destruct (IH (operator_condition st c)) as [Hn' [Hi' [Hh' He']]].
    cbn [fold_left flat_map]. rewrite Hn', Hi', Hn, Hi, <- app_assoc.
    split; [reflexivity|]. split; [reflexivity|]. split.
    + rewrite Hh', Hs. split.
      * intros [Hstep Hrest].
        destruct (operator_level c) as [l|] eqn:Hl.
        -- exfalso. unfold operator_level in Hl.
           repeat match type of Hl with
                  | context [if ?b then _ else _] => destruct b
                  end; congruence.
        -- split; [exact Hstep|]. intros c' [<- | Hin];
             [now apply operator_level_message | now apply Hrest].
      * intros [Hst Hall]. split.
        -- assert (Hl : operator_level c = None)
             by (apply operator_level_message, Hall; now left).
           now rewrite Hl.
        -- intros c' Hin. apply Hall. now right.
    + intros Hne. apply He'. rewrite Hs.
      unfold operator_level.
      repeat match goal with
             | |- context [if ?b then _ else _] => destruct b
             end; solve [discriminate | exact Hne].
Qed.

(** X3: for a cluster operator whose status lists its conditions, the
    record derived carries the operator's name; its issues are exactly the
    messages of the adverse conditions (Degraded true, Progressing true,
    Available not true), in the order of the conditions; its level is
    never Error and is Healthy exactly when no condition is adverse. An
    operator without a status gets the Healthy record with no issue. For
    an operator whose status has no conditions the loop over them raises
    the [TypeError] of iterating [None], and no record is derived. *)
Theorem X3_operator_record_exact (operator : ClusterOperator) :
  match op_conditions operator with
  | Value conditions =>
      exists record,
        critical_operator_status operator = inr record
        /\ name record = op_name operator
        /\ issues record
           = flat_map (fun c => opt_list (operator_message c)) conditions
        /\ status record <> Error
        /\ (status record = Healthy
            <-> forall c, In c conditions -> operator_message c = None)
  | Missing =>
      critical_operator_status operator
      = inr (mkEntity (op_name operator) None Healthy [] None)
  | PyNone =>
      critical_operator_status operator
      = inl (PyException "'NoneType' object is not iterable")
  end.
Proof.
  unfold critical_operator_status.
  destruct (op_conditions operator) as [| |conditions]; [reflexivity..|].
  eexists. split; [reflexivity|].
  destruct (operator_conditions_fold conditions
              (mkEntity (op_name operator) None Healthy [] None))
    as [Hn [Hi [Hh He]]].
  cbn [name issues status] in *.
  split; [exact Hn|]. split; [exact Hi|].
  split; [apply He; discriminate|].
  rewrite Hh. split; [intros [_ Hall]; exact Hall | intros Hall; now split].
Qed.

Section OperatorProbeFacts.
Context {St : Type} `{Cluster St}.

(** X20: the Critical Operators probe returns one record per operator,
    in the order of the list, when the condition loop of every operator
    runs through. One operator whose status has no conditions makes the
    loop raise: the records derived so far are dropped and, once the
    console has taken the error line, the probe returns the single Error
    entity named "unknown" whose only issue is the text of the
    [TypeError]. *)
Theorem X20_operators_all_or_error (w : World St)
    (operators : list ClusterOperator) (s' : St) :
  operators_get None (server w) = (inr operators, s') ->
  ((forall operator, In operator operators -> op_conditions operator <> PyNone) ->
   exists records,
     check_critical_operators w = (Val records, with_server s' w)
     /\ map_raises critical_operator_status operators = inr records
     /\ map name records = map op_name operators)
  /\ ((exists operator, In operator operators /\ op_conditions operator = PyNone) ->
      markup_error w (operators_error_line none_not_iterable) = None ->
      check_critical_operators w
      = (Val [mkEntity "unknown" None Error
                ["'NoneType' object is not iterable"] None],
         log_console (operators_error_line none_not_iterable)
           (with_server s' w))).
Proof.
  intros Hget. split.
  - intros Hfine.
    assert (Hmap : exists records,
               map_raises critical_operator_status operators = inr records
               /\ map name records = map op_name operators).
    { clear Hget. induction operators as [|operator operators IH].
      - now exists [].
      - destruct IH as [records [Hmap Hnames]];
          [intros o Ho; apply Hfine; now right|].
        pose proof (Hfine operator (or_introl eq_refl)) as Hop.
        simpl. rewrite Hmap. unfold critical_operator_status.
        destruct (op_conditions operator) as [| |conditions];
          [|now contradiction Hop|]; eexists; (split; [reflexivity|]);
          simpl; f_equal; try exact Hnames.
        now destruct (operator_conditions_fold conditions
                        (mkEntity (op_name operator) None Healthy [] None))
          as [Hn _]. }
    destruct Hmap as [records [Hmap Hnames]]. exists records.
    split; [|now split].
    unfold check_critical_operators, try_except, bind, call.
    rewrite Hget, Hmap. reflexivity.
  - intros [operator [Hin Hnone]] Hok.
    assert (Hmap : map_raises critical_operator_status operators
                   = inl none_not_iterable).
    { clear Hget. induction operators as [|o operators IH]; [destruct Hin|].
      simpl. unfold critical_operator_status at 1.
      destruct Hin as [-> | Hin].
      - now rewrite Hnone.
      - destruct (op_conditions o); [|reflexivity|]; now rewrite (IH Hin). }
    unfold check_critical_operators, try_except, bind, call.
    rewrite Hget, Hmap.
    unfold lift_raises, raise_exn, console_print_markup, ret.
    change (markup_error (with_server s' w)) with (markup_error w).
    unfold operators_error_line in Hok. now rewrite Hok.
Qed.
End OperatorProbeFacts.

Lemma X20_operators_all_or_error_witness :
  (exists records,
      @check_critical_operators nat
        (one_operator_cluster degraded_then_progressing) fresh_world
      = (Val records, mkWorld 1 [] [])
      /\ map_raises critical_operator_status [degraded_then_progressing]
         = inr records
      /\ map name records = map op_name [degraded_then_progressing])
  /\ @check_critical_operators nat
       (scripted_cluster (fun _ => inr [])
          (fun _ => inr [degraded_then_progressing; mkOperator "dns" PyNone])
          (fun _ _ => inr None))
       fresh_world
     = (Val [mkEntity "unknown" None Error
               ["'NoneType' object is not iterable"] None],
        mkWorld 1
          ["[red]Error checking critical operators: 'NoneType' object is not iterable[/red]"]
          []).
Proof.
  split.
  - apply (proj1 (@X20_operators_all_or_error nat
                    (one_operator_cluster degraded_then_progressing)
                    fresh_world [degraded_then_progressing] 1 eq_refl)).
    intros operator [<- | []]. discriminate.
  - apply (proj2 (@X20_operators_all_or_error nat
                    (scripted_cluster (fun _ => inr [])
                       (fun _ => inr [degraded_then_progressing;
                                      mkOperator "dns" PyNone])
                       (fun _ _ => inr None))
                    fresh_world
                    [degraded_then_progressing; mkOperator "dns" PyNone] 1
                    eq_refl)).
    + exists (mkOperator "dns" PyNone). split; [right; now left | reflexivity].
    + reflexivity.
Defined.

(* ================================================================= *)
(** ** The etcd probe and the pod checks *)

Lemma flat_map_nil_iff {A B : Type} (f : A -> list B) (l : list A) :
  flat_map f l = [] <-> forall a, In a l -> f a = [].
Proof.
  induction l as [|a l IH]; simpl.
  - split; [intros _ a [] | reflexivity].
  - split.
    + intros Heq. apply app_eq_nil in Heq. destruct Heq as [Ha Hl].
      intros a' [<- | Hin]; [exact Ha | now apply IH].
    + intros Hall. rewrite (Hall a) by now left. simpl.
      apply IH. intros a' Hin. apply Hall. now right.
Qed.

Lemma etcd_operator_conditions_first (pre post : list Condition) (c : Condition) :
  (forall c', In c' pre -> etcd_adverse c' = false) ->
  etcd_adverse c = true ->
  etcd_operator_conditions (pre ++ c :: post)
  = Some (mkAggregate Unhealthy None (Some [etcd_adverse_message c]) None).
Proof.
  induction pre as [|c0 pre IH]; intros Hpre Hc.
  - simpl. unfold etcd_adverse in Hc. unfold etcd_adverse_message.
    destruct ((cond_type c =? "Degraded") && (cond_status c =? "True"));
      [reflexivity|].
    simpl in Hc. now rewrite Hc.
  - simpl. pose proof (Hpre c0 (or_introl eq_refl)) as Hc0.
    unfold etcd_adverse in Hc0. apply orb_false_iff in Hc0.
    destruct Hc0 as [H1 H2]. rewrite H1, H2.
    apply IH; [|exact Hc]. intros c' Hin. apply Hpre. now right.
Qed.

(** X4: when the etcd operator has an adverse condition (Degraded true, or
    Available not true), the etcd probe returns Unhealthy with the single
    message of the first such condition in list order, and it does so
    right after the operator query: the etcd pods are not listed. *)
Theorem X4_etcd_operator_failure_short_circuits {St : Type} `{Cluster St}
    (fuel : nat) (w : World St) (s1 : St) (etcd_operator : ClusterOperator)
    (others : list ClusterOperator) (pre post : list Condition) (c : Condition) :
  operators_get (Some "metadata.name=etcd") (server w)
  = (inr (etcd_operator :: others), s1) ->
  op_conditions etcd_operator = Value (pre ++ c :: post) ->
  (forall c', In c' pre -> etcd_adverse c' = false) ->
  etcd_adverse c = true ->
  check_etcd_health fuel w
  = (Val (mkAggregate Unhealthy None (Some [etcd_adverse_message c]) None),
     with_server s1 w).
Proof.
  intros Hget Hconds Hpre Hc.
  unfold check_etcd_health, try_except, bind, call.
  rewrite Hget, Hconds, (etcd_operator_conditions_first pre post c Hpre Hc).
  reflexivity.
Qed.

Lemma X4_etcd_operator_failure_short_circuits_witness :
  @check_etcd_health nat (one_operator_cluster progressing_then_degraded) 3
    fresh_world
  = (Val (mkAggregate Unhealthy None (Some ["raft instability"]) None),
     mkWorld 1 [] []).
Proof.
  apply (@X4_etcd_operator_failure_short_circuits nat
           (one_operator_cluster progressing_then_degraded) 3 fresh_world 1
           progressing_then_degraded []
           [mkCondition "Progressing" "True" "rolling out revision 7"] []
           (mkCondition "Degraded" "True" "raft instability")).
  - reflexivity.
  - reflexivity.
  - intros c' [<- | []]. reflexivity.
  - reflexivity.
Defined.

Lemma container_issues_nil (pod_name : string) (containers : list ContainerStatus) :
  flat_map (fun container =>
              if negb (ready container)
              then [(pod_name ++ ": container " ++ container_name container
                       ++ " not ready")%string]
              else []) containers = []
  <-> forall c, In c containers -> ready c = true.
Proof.
  rewrite flat_map_nil_iff. split; intros Hall c Hin; specialize (Hall c Hin).
  - destruct (ready c); [reflexivity | discriminate Hall].
  - now rewrite Hall.
Qed.

(** The etcd probe has nothing to say about a pod exactly when the pod is
    running and ready. *)
Lemma etcd_pod_issues_nil (pod : Pod) :
  etcd_pod_issues pod = inr [] <-> pod_running_and_ready pod.
Proof.
  unfold etcd_pod_issues, pod_running_and_ready.
  destruct (pod_status pod) as [| |st].
  - split; [discriminate|]. intros [st [Hst _]]. discriminate Hst.
  - split; [discriminate|]. intros [st [Hst _]]. discriminate Hst.
  - destruct (phase st =? "Running") eqn:Hphase; cbn [negb].
    + apply String.eqb_eq in Hphase.
      destruct (container_statuses st) as [| |containers] eqn:Hcs.
      * split; [|reflexivity]. intros _. exists st. rewrite Hcs. now repeat split.
      * split; [discriminate|]. intros [st' [Hst [_ Hall]]].
        injection Hst as <-. now rewrite Hcs in Hall.
      * split.
        -- intros Heq.
           assert (Hall := f_equal (fun r : Raises (list string) =>
                                      match r with inr l => l | inl _ => [] end)
                             Heq).
           cbv beta iota in Hall.
           pose proof (proj1 (container_issues_nil (pod_name pod) containers) Hall)
             as Hready.
           exists st. rewrite Hcs. now repeat split.
        -- intros [st' [Hst [_ Hall]]]. injection Hst as <-.
           rewrite Hcs in Hall. f_equal.
           now apply (proj2 (container_issues_nil (pod_name pod) containers)).
    + apply String.eqb_neq in Hphase. split; [discriminate|].
      intros [st' [Hst [Hrun _]]]. injection Hst as <-. contradiction.
Qed.

(** A pod whose checks pass contributes its issues. *)
Lemma etcd_pod_issues_returns (pod : Pod) :
  pod_checks_pass pod -> exists found, etcd_pod_issues pod = inr found.
Proof.
  unfold pod_checks_pass, etcd_pod_issues.
  destruct (pod_status pod) as [| |st]; [eexists; reflexivity | intros [] |].
  destruct (phase st =? "Running") eqn:Hphase; [|eexists; reflexivity].
  apply String.eqb_eq in Hphase. intros Hpass. specialize (Hpass Hphase).
  simpl. destruct (container_statuses st);
    [eexists; reflexivity | now contradiction Hpass | eexists; reflexivity].
Qed.

(** The loop over the etcd pods gathers what each pod contributes, up to
    the first pod whose checks raise. *)
Lemma etcd_pods_loop_spec (pods : list Pod) :
  forall unhealthy_pods,
    etcd_pods_loop pods unhealthy_pods
    = match map_raises etcd_pod_issues pods with
      | inl e => inl e
      | inr found => inr (unhealthy_pods ++ concat found)
      end.
Proof.
  induction pods as [|pod pods IH]; intros unhealthy_pods; simpl.
  - now rewrite app_nil_r.
  - destruct (etcd_pod_issues pod) as [e|found]; [reflexivity|].
    rewrite IH. destruct (map_raises etcd_pod_issues pods) as [e|more];
      [reflexivity|].
    simpl. now rewrite app_assoc.
Qed.

Lemma map_raises_first_failure {A B : Type} (f : A -> Raises B)
    (pre post : list A) (x : A) (e : Exn) :
  (forall a, In a pre -> exists b, f a = inr b) ->
  f x = inl e ->
  map_raises f (pre ++ x :: post) = inl e.
Proof.
  intros Hpre Hx. rewrite map_raises_app.
  destruct (map_raises_total f pre Hpre) as [bs ->].
  simpl. now rewrite Hx.
Qed.

(** X5: when the etcd operator check passes and the pod query returns at
    least one pod, then (1) if the checks of no pod raise, the etcd probe
    returns Healthy exactly when every pod has a status, is in phase
    Running and has all its listed containers ready, and otherwise
    Unhealthy with a non-empty issues list holding what the pods
    contribute, pod by pod in list order; (2) if the checks of a pod raise
    (its status is [None], or it is running and its container statuses are
    [None]) and those of the pods before it do not, the probe returns
    Error with the text of that exception, once the console has taken the
    error line. *)
Theorem X5_etcd_pods_verdict {St : Type} `{Cluster St}
    (fuel : nat) (w w2 : World St) (s1 : St) (etcd_operator : ClusterOperator)
    (others : list ClusterOperator) (pods : list Pod) :
  operators_get (Some "metadata.name=etcd") (server w)
  = (inr (etcd_operator :: others), s1) ->
  etcd_operator_check_passes etcd_operator ->
  _get_paginated_pods fuel "openshift-etcd" (Some "app=etcd") (with_server s1 w)
  = (Val pods, w2) ->
  pods <> [] ->
  ((forall pod, In pod pods -> pod_checks_pass pod) ->
   exists verdict found,
     map_raises etcd_pod_issues pods = inr found
     /\ check_etcd_health fuel w = (Val verdict, w2)
     /\ (agg_status verdict = Healthy
         <-> forall pod, In pod pods -> pod_running_and_ready pod)
     /\ (verdict = mkAggregate Healthy None None
                     (Some "All etcd pods are running and ready")
         \/ (verdict = mkAggregate Unhealthy None (Some (concat found)) None
             /\ concat found <> [])))
  /\ (forall pre pod post e,
         pods = pre ++ pod :: post ->
         (forall p, In p pre -> pod_checks_pass p) ->
         etcd_pod_issues pod = inl e ->
         markup_error w2 (etcd_error_line e) = None ->
         check_etcd_health fuel w
         = (Val (mkAggregate Error (Some (str e)) None None),
            log_console (etcd_error_line e) w2)).
Proof.
  intros Hget Hpass Hpods Hne.
  assert (Hrun : check_etcd_health fuel w
                 = try_except
                     (unhealthy_pods <- lift_raises (etcd_pods_loop pods []) ;;
                      if negb (is_empty unhealthy_pods)
                      then ret (mkAggregate Unhealthy None (Some unhealthy_pods) None)
                      else ret (mkAggregate Healthy None None
                                  (Some "All etcd pods are running and ready")))
                     (fun e =>
                        console_print_markup (etcd_error_line e) ;;
                        ret (mkAggregate Error (Some (str e)) None None)) w2).
  { unfold check_etcd_health, try_except, bind, call. rewrite Hget.
    unfold etcd_operator_check_passes in Hpass.
    destruct (op_conditions etcd_operator) as [| |conditions];
      [|destruct Hpass|rewrite (etcd_operator_conditions_pass _ Hpass)];
      unfold lift_raises at 1, ret at 1; rewrite Hpods;
      apply is_empty_false in Hne; rewrite Hne; reflexivity. }
  rewrite Hrun. clear Hrun. rewrite etcd_pods_loop_spec. split.
  - intros Hsafe.
    destruct (map_raises_total etcd_pod_issues pods) as [found Hfound];
      [intros pod Hin; now apply etcd_pod_issues_returns, Hsafe|].
    rewrite Hfound. unfold try_except, bind, lift_raises, ret. cbn [app].
    assert (Hnil : concat found = []
                   <-> forall pod, In pod pods -> pod_running_and_ready pod).
    { clear Hpods Hne Hsafe. revert found Hfound.
      induction pods as [|pod pods IH]; intros found Hfound; simpl in Hfound.
      - injection Hfound as <-. split; [intros _ pod [] | reflexivity].
      - destruct (etcd_pod_issues pod) as [e|l] eqn:Hpod; [discriminate|].
        destruct (map_raises etcd_pod_issues pods) as [e|ls]; [discriminate|].
        injection Hfound as <-. simpl. split.
        + intros Heq. apply app_eq_nil in Heq. destruct Heq as [-> Hls].
          intros p [<- | Hin]; [now apply etcd_pod_issues_nil|].
          now apply (proj1 (IH ls eq_refl)).
        + intros Hall.
          pose proof (proj2 (etcd_pod_issues_nil pod) (Hall pod (or_introl eq_refl)))
            as Hl.
          rewrite Hpod in Hl. injection Hl as ->. simpl.
          apply (proj2 (IH ls eq_refl)). intros p Hin. apply Hall. now right. }
    destruct (is_empty (concat found)) eqn:Hissues; simpl.
    + apply is_empty_true in Hissues. eexists. exists found.
      split; [reflexivity|]. split; [reflexivity|]. split.
      * split; [|reflexivity]. intros _. now apply Hnil.
      * now left.
    + apply is_empty_false in Hissues. eexists. exists found.
      split; [reflexivity|]. split; [reflexivity|]. split.
      * simpl. split; [discriminate|]. intros Hall. exfalso. apply Hissues.
        now apply Hnil.
      * right. now split.
  - intros pre pod post e -> Hsafe Hraise Hok.
    rewrite (map_raises_first_failure etcd_pod_issues pre post pod e);
      [| intros p Hin; now apply etcd_pod_issues_returns, Hsafe | exact Hraise].
    unfold try_except, bind, lift_raises, raise_exn, console_print_markup, ret.
    now rewrite Hok.
Qed.

Lemma X5_etcd_pods_verdict_witness :
  (exists verdict found,
      map_raises etcd_pod_issues [running_pod "etcd-0"; running_pod "etcd-1"]
      = inr found
      /\ @check_etcd_health nat etcd_with_pods_cluster 0 fresh_world
         = (Val verdict, mkWorld 2 [] [])
      /\ (agg_status verdict = Healthy
          <-> forall pod, In pod [running_pod "etcd-0"; running_pod "etcd-1"] ->
                pod_running_and_ready pod)
      /\ (verdict = mkAggregate Healthy None None
                      (Some "All etcd pods are running and ready")
          \/ (verdict = mkAggregate Unhealthy None (Some (concat found)) None
              /\ concat found <> [])))
  /\ @check_etcd_health nat
       (scripted_cluster (fun _ => inr []) (fun _ => inr [available_etcd])
          (fun _ _ =>
             inr (Some (mkPage [running_pod "etcd-0";
                                running_pod_without_containers "etcd-1"] None))))
       0 fresh_world
     = (Val (mkAggregate Error (Some "'NoneType' object is not iterable")
               None None),
        mkWorld 2
          ["[red]Error checking etcd health: 'NoneType' object is not iterable[/red]"]
          []).
Proof.
  assert (Hpass : etcd_operator_check_passes available_etcd).
  { unfold etcd_operator_check_passes. simpl.
    intros c [<- | [<- | [<- | []]]]; simpl; split; intros Hty;
      solve [discriminate Hty | reflexivity | discriminate]. }
  split.
  - apply (proj1 (@X5_etcd_pods_verdict nat etcd_with_pods_cluster 0 fresh_world
                    (mkWorld 2 [] []) 1 available_etcd []
                    [running_pod "etcd-0"; running_pod "etcd-1"]
                    eq_refl Hpass eq_refl ltac:(discriminate))).
    intros pod [<- | [<- | []]]; simpl; discriminate.
  - apply (proj2 (@X5_etcd_pods_verdict nat
                    (scripted_cluster (fun _ => inr [])
                       (fun _ => inr [available_etcd])
                       (fun _ _ =>
                          inr (Some (mkPage
                                       [running_pod "etcd-0";
                                        running_pod_without_containers "etcd-1"]
                                       None))))
                    0 fresh_world (mkWorld 2 [] []) 1 available_etcd []
                    [running_pod "etcd-0"; running_pod_without_containers "etcd-1"]
                    eq_refl Hpass eq_refl ltac:(discriminate))
             [running_pod "etcd-0"] (running_pod_without_containers "etcd-1") []
             none_not_iterable).
    + reflexivity.
    + intros p [<- | []]. simpl. discriminate.
    + reflexivity.
    + reflexivity.
Defined.

Lemma flat_map_guard_length {A B : Type} (guard : A -> bool) (f g : A -> B)
    (l : list A) :
  length (flat_map (fun a => if guard a then [f a] else []) l)
  = length (flat_map (fun a => if guard a then [g a] else []) l).
Proof.
  induction l as [|a l IH]; [reflexivity|].
  simpl. rewrite !length_app, IH. now destruct (guard a).
Qed.

Lemma container_checks_fold (containers : list ContainerStatus) :
  forall entry,
    name (fold_left container_check containers entry) = name entry
    /\ namespace (fold_left container_check containers entry) = namespace entry
    /\ issues (fold_left container_check containers entry)
       = issues entry
         ++ flat_map (fun c => if negb (ready c)
                               then [("Container " ++ container_name c
                                        ++ " not ready")%string]
                               else []) containers
    /\ status (fold_left container_check containers entry)
       = if forallb ready containers then status entry else Unhealthy.
Proof.
  induction containers as [|c containers IH]; intros entry.
  - simpl. now rewrite app_nil_r.
  - cbn [fold_left flat_map forallb].
    destruct (IH (container_check entry c)) as [Hn [Hns [Hi Hs]]].
    rewrite Hn, Hns, Hi, Hs. unfold container_check.
    destruct (ready c); cbn.
    + repeat split.
    + rewrite <- app_assoc. repeat split. now destruct (forallb ready containers).
Qed.

(** X6: for a pod whose checks raise nothing, the record the
    Control-Plane Pods probe derives carries the pod's name and namespace;
    its level is Error exactly when the pod has no status attribute and
    Healthy exactly when the pod is running and ready, otherwise
    Unhealthy; and it lists as many issues as the etcd probe raises about
    the same pod. For a pod whose status is [None] both probes raise the
    [AttributeError] of reading [phase], and for a running pod whose
    container statuses are [None] both raise the [TypeError] of iterating
    [None]: the two probes judge a pod alike. *)
Theorem X6_control_plane_pod_level (ns : string) (pod : Pod) :
  (pod_checks_pass pod ->
   exists record found,
     control_plane_pod_status ns pod = inr record
     /\ etcd_pod_issues pod = inr found
     /\ name record = pod_name pod
     /\ namespace record = Some ns
     /\ (status record = Error <-> pod_status pod = Missing)
     /\ (status record = Healthy <-> pod_running_and_ready pod)
     /\ status record <> Warning
     /\ length (issues record) = length found)
  /\ (pod_status pod = PyNone ->
      control_plane_pod_status ns pod
      = inl (PyException "'NoneType' object has no attribute 'phase'")
      /\ etcd_pod_issues pod
         = inl (PyException "'NoneType' object has no attribute 'phase'"))
  /\ (forall st,
         pod_status pod = Value st ->
         phase st = "Running" ->
         container_statuses st = PyNone ->
         control_plane_pod_status ns pod
         = inl (PyException "'NoneType' object is not iterable")
         /\ etcd_pod_issues pod
            = inl (PyException "'NoneType' object is not iterable")).
Proof.
  split; [|split].
  - intros Hpass.
    pose proof (etcd_pod_issues_nil pod) as Hnil.
    unfold pod_checks_pass in Hpass.
    unfold control_plane_pod_status, etcd_pod_issues in *.
    destruct (pod_status pod) as [| |st] eqn:Hst; [| destruct Hpass |].
    + eexists. eexists. split; [reflexivity|]. split; [reflexivity|]. cbn.
      repeat split; try discriminate; try reflexivity.
      intros Hready. apply Hnil in Hready. discriminate Hready.
    + destruct (phase st =? "Running") eqn:Hphase; cbn [negb] in *.
      * apply String.eqb_eq in Hphase. specialize (Hpass Hphase).
        destruct (container_statuses st) as [| |containers] eqn:Hcs;
          [| now contradiction Hpass |].
        -- eexists. eexists. split; [reflexivity|]. split; [reflexivity|]. cbn.
           repeat split; try discriminate; try reflexivity.
           intros _. now apply Hnil.
        -- eexists. eexists. split; [reflexivity|]. split; [reflexivity|].
           destruct (container_checks_fold containers
                       (mkEntity (pod_name pod) (Some ns) Healthy [] None))
             as [Hn [Hns [Hi Hs]]]; cbn [name namespace issues status app] in *.
           split; [exact Hn|]. split; [exact Hns|].
           split; [rewrite Hs; destruct (forallb ready containers);
                   split; discriminate|].
           split; [|split].
           ++ rewrite <- Hnil, Hs.
              destruct (forallb ready containers) eqn:Hall.
              ** split; [|reflexivity]. intros _. f_equal.
                 apply (proj2 (container_issues_nil (pod_name pod) containers)).
                 now apply forallb_forall.
              ** split; [discriminate|]. intros Heq.
                 assert (Hissues := f_equal
                           (fun r : Raises (list string) =>
                              match r with inr l => l | inl _ => [] end) Heq).
                 cbv beta iota in Hissues.
                 pose proof (proj1 (container_issues_nil (pod_name pod) containers)
                               Hissues) as Hready.
                 apply forallb_forall in Hready. congruence.
           ++ rewrite Hs. destruct (forallb ready containers); discriminate.
           ++ rewrite Hi. apply (flat_map_guard_length (fun c => negb (ready c))).
      * eexists. eexists. split; [reflexivity|]. split; [reflexivity|]. cbn.
        repeat split; try discriminate; try reflexivity.
        intros Hready. apply Hnil in Hready. discriminate Hready.
  - intros Hst. unfold control_plane_pod_status, etcd_pod_issues.
    rewrite Hst. now split.
  - intros st Hst Hphase Hcs. unfold control_plane_pod_status, etcd_pod_issues.
    rewrite Hst, Hcs. apply String.eqb_eq in Hphase. rewrite Hphase. now split.
Qed.

(* ================================================================= *)
(** ** Control-plane pods: the shape of the result *)

Lemma prefix_iff (needle haystack : string) :
  prefix needle haystack = true <-> exists post, haystack = (needle ++ post)%string.
Proof.
  revert haystack. induction needle as [|a needle IH]; intros haystack.
  - destruct haystack; simpl; split; intros; eauto.
  - destruct haystack as [|b haystack]; simpl.
    + split; [discriminate | intros [post Heq]; discriminate Heq].
    + destruct (ascii_dec a b) as [-> | Hne].
      * rewrite IH. split; intros [post Heq]; exists post; congruence.
      * split; [discriminate|]. intros [post Heq]. congruence.
Qed.

(** [contains] is the substring test. *)
Lemma contains_iff (needle haystack : string) :
  contains needle haystack = true
  <-> exists pre post, haystack = (pre ++ needle ++ post)%string.
Proof.
  induction haystack as [|c haystack IH].
  - cbn [contains]. rewrite orb_false_r, prefix_iff. split.
    + intros [post Heq]. now exists EmptyString, post.
    + intros [pre [post Heq]]. destruct pre; [now exists post|discriminate Heq].
  - cbn [contains]. rewrite orb_true_iff, prefix_iff, IH. split.
    + intros [[post Heq] | [pre [post Heq]]].
      * now exists EmptyString, post.
      * exists (String c pre), post. simpl. now rewrite Heq.
    + intros [[|c' pre] [post Heq]].
      * left. now exists post.
      * right. simpl in Heq. injection Heq as _ Heq. now exists pre, post.
Qed.

(** X7: a pod passes the filter of the Control-Plane Pods probe exactly
    when its name has etcd, apiserver, controller-manager or scheduler as a
    substring, anywhere in the name. *)
Theorem X7_control_plane_filter_is_substring_test (pod_name : string) :
  is_control_plane_pod pod_name = true
  <-> exists component pre post,
        In component ["etcd"; "apiserver"; "controller-manager"; "scheduler"]
        /\ pod_name = (pre ++ component ++ post)%string.
Proof.
  unfold is_control_plane_pod. rewrite existsb_exists. split.
  - intros [component [Hin Hc]]. apply contains_iff in Hc.
    destruct Hc as [pre [post Heq]]. now exists component, pre, post.
  - intros [component [pre [post [Hin Heq]]]]. exists component.
    split; [exact Hin|]. apply contains_iff. now exists pre, post.
Qed.

Lemma control_plane_pod_status_fields (ns : string) (pod : Pod)
    (record : EntityStatus) :
  control_plane_pod_status ns pod = inr record ->
  name record = pod_name pod /\ namespace record = Some ns.
Proof.
  unfold control_plane_pod_status.
  destruct (pod_status pod) as [| |st]; [intros [= <-]; now split | discriminate |].
  destruct (negb (phase st =? "Running")); [intros [= <-]; now split|].
  destruct (container_statuses st) as [| |containers];
    [intros [= <-]; now split | discriminate |].
  intros [= <-].
  destruct (container_checks_fold containers
              (mkEntity (pod_name pod) (Some ns) Healthy [] None))
    as [Hn [Hns _]].
  now split.
Qed.

Lemma namespace_entries_namespace (ns : string) (pods : list Pod)
    (entries : list EntityStatus) (e : EntityStatus) :
  namespace_entries ns pods = inr entries ->
  In e entries -> namespace e = Some ns.
Proof.
  unfold namespace_entries.
  destruct (is_empty pods); [intros [= <-] [<- | []]; reflexivity|].
  destruct (map_raises _ _) as [x|records] eqn:Hmap; [discriminate|].
  destruct records as [|record records];
    [intros [= <-] [<- | []]; reflexivity|].
  intros [= <-] Hin.
  destruct (map_raises_in _ _ _ _ Hmap Hin) as [pod [_ Hpod]].
  now apply (control_plane_pod_status_fields ns pod).
Qed.

Lemma fetched_entries_length (fetched : list (string * list Pod)) :
  forall entries,
    fetched_entries fetched = inr entries -> length fetched <= length entries.
Proof.
  induction fetched as [|[ns pods] fetched IH]; intros entries Hent;
    simpl in Hent |- *; [lia|].
  destruct (namespace_entries ns pods) as [e|es] eqn:Hns; [discriminate|].
  destruct (fetched_entries fetched) as [e|more]; [discriminate|].
  injection Hent as <-. rewrite length_app.
  apply namespace_entries_nonempty in Hns.
  specialize (IH more eq_refl). destruct es; [contradiction|]. simpl. lia.
Qed.

Section ControlPlaneShape.
Context {St : Type} `{Cluster St}.

(** X8: whenever the Control-Plane Pods probe returns, either its handler
    has run, and the result is the single Error entity named "unknown"
    whose issue is the text of the exception caught, printed last on the
    console; or the result has at least one entry for every critical
    namespace, every entry belongs to a critical namespace, and there are
    at least five entries. The branch for an empty result is taken in no
    run. *)
Theorem X8_control_plane_result_covers_namespaces
    (fuel : nat) (w w' : World St) (results : list EntityStatus) :
  check_control_plane_pods fuel w = (Val results, w') ->
  (exists e w1,
      results = [mkEntity "unknown" (Some "unknown") Error [str e] None]
      /\ namespaces_loop fuel critical_namespaces [] w = (Exc e, w1)
      /\ w' = log_console (control_plane_error_line e) w1)
  \/ (namespaces_loop fuel critical_namespaces [] w = (Val results, w')
      /\ (forall ns, In ns critical_namespaces ->
            exists e, In e results /\ namespace e = Some ns)
      /\ (forall e, In e results ->
            exists ns, In ns critical_namespaces /\ namespace e = Some ns)
      /\ 5 <= length results).
Proof.
  unfold check_control_plane_pods, try_except, bind.
  destruct (namespaces_loop fuel critical_namespaces [] w) as [[r|e|] w1]
    eqn:Hloop.
  - destruct (namespaces_loop_returns _ _ _ _ _ _ Hloop)
      as [fetched [entries [Hfetch [Hent Hr]]]].
    simpl in Hr. subst r.
    pose proof (fetch_namespaces_keys _ _ _ _ _ Hfetch) as Hkeys.
    pose proof (fetched_entries_length fetched entries Hent) as Hlen.
    assert (Hfive : length fetched = 5)
      by (rewrite <- (length_map fst), Hkeys; reflexivity).
    destruct entries as [|entry entries]; [simpl in Hlen; lia|].
    cbn [is_empty]. unfold ret. intros [= <- <-]. right.
    split; [reflexivity|]. split; [|split; [|lia]].
    + intros ns Hns. rewrite <- Hkeys in Hns. apply in_map_iff in Hns.
      destruct Hns as [[ns' pods] [Heq Hin]]. simpl in Heq. subst ns'.
      assert (Hes : exists es, namespace_entries ns pods = inr es).
      { clear - Hin Hent. revert entry entries Hent.
        generalize dependent fetched.
        induction fetched as [|[ns0 pods0] fetched IH]; intros Hin entry entries
          Hent; [destruct Hin|]. simpl in Hent.
        destruct (namespace_entries ns0 pods0) as [x|es0] eqn:Hns0;
          [discriminate|].
        destruct (fetched_entries fetched) as [x|more] eqn:Hmore; [discriminate|].
        destruct Hin as [Heq | Hin].
        - injection Heq as <- <-. now exists es0.
        - destruct more as [|m more].
          + pose proof (fetched_entries_length fetched [] Hmore) as Hl.
            destruct fetched; [destruct Hin | simpl in Hl; lia].
          + now apply (IH Hin m more). }
      destruct Hes as [es Hes].
      pose proof (namespace_entries_nonempty _ _ _ Hes) as Hne.
      destruct es as [|e es]; [contradiction|].
      exists e. split.
      * apply (fetched_entries_in fetched _ e Hent).
        exists ns, pods, (e :: es). repeat split; [assumption.. | now left].
      * apply (namespace_entries_namespace ns pods (e :: es)); [exact Hes | now left].
    + intros e Hin. apply (fetched_entries_in fetched _ e Hent) in Hin.
      destruct Hin as [ns [pods [es [Hin [Hns He]]]]]. exists ns. split.
      * rewrite <- Hkeys. apply in_map_iff. now exists (ns, pods).
      * now apply (namespace_entries_namespace ns pods es).
  - unfold console_print_markup, ret.
    destruct (markup_error w1 _) eqn:Hm; [discriminate|].
    intros [= <- <-]. left. now exists e, w1.
  - discriminate.
Qed.

(** X9: for a namespace whose pod list holds at least one control-plane
    pod, the probe goes through the control-plane pods in listing order
    and skips the others. When the checks of none of them raise, it adds
    to its results exactly one record per control-plane pod, carrying the
    pod's name, and no placeholder. When the checks of one of them raise,
    the exception ends the namespace step. *)
Theorem X9_one_record_per_control_plane_pod
    (fuel : nat) (results : list EntityStatus) (ns : string)
    (w w' : World St) (pods : list Pod) :
  _get_paginated_pods fuel ns None w = (Val pods, w') ->
  (exists pod, In pod pods /\ is_control_plane_pod (pod_name pod) = true) ->
  ((forall pod, In pod (control_plane_pods pods) -> pod_checks_pass pod) ->
   exists records,
     map_raises (control_plane_pod_status ns) (control_plane_pods pods)
     = inr records
     /\ namespace_step fuel results ns w = (Val (results ++ records), w')
     /\ map name records = map pod_name (control_plane_pods pods))
  /\ (forall pre pod post e,
         control_plane_pods pods = pre ++ pod :: post ->
         (forall p, In p pre -> pod_checks_pass p) ->
         control_plane_pod_status ns pod = inl e ->
         namespace_step fuel results ns w = (Exc e, w')).
Proof.
  intros Hfetch [pod [Hin Hcp]].
  rewrite (namespace_step_entries _ _ _ _ _ _ Hfetch).
  unfold namespace_entries.
  assert (Hkept : In pod (control_plane_pods pods))
    by (apply filter_In; now split).
  assert (Hpods : is_empty pods = false) by (now destruct pods).
  rewrite Hpods. split.
  - intros Hsafe.
    destruct (map_raises_total (control_plane_pod_status ns)
                (control_plane_pods pods)) as [records Hmap];
      [intros p Hp; now apply control_plane_pod_status_returns, Hsafe|].
    exists records. rewrite Hmap. split; [reflexivity|]. split.
    + pose proof (map_raises_length _ _ _ Hmap) as Hlen.
      destruct records as [|record records]; [|reflexivity].
      destruct (control_plane_pods pods); [destruct Hkept | discriminate Hlen].
    + clear - Hmap. revert records Hmap.
      induction (control_plane_pods pods) as [|p l IH]; intros records Hmap;
        simpl in Hmap.
      * now injection Hmap as <-.
      * destruct (control_plane_pod_status ns p) as [x|record] eqn:Hp;
          [discriminate|].
        destruct (map_raises (control_plane_pod_status ns) l) as [x|rs];
          [discriminate|].
        injection Hmap as <-. simpl. f_equal; [|now apply IH].
        now destruct (control_plane_pod_status_fields ns p record Hp).
  - intros pre p post e Heq Hsafe Hraise. rewrite Heq.
    rewrite (map_raises_first_failure (control_plane_pod_status ns) pre post p e);
      [reflexivity | | exact Hraise].
    intros q Hq. now apply control_plane_pod_status_returns, Hsafe.
Qed.
End ControlPlaneShape.

Lemma X8_control_plane_result_covers_namespaces_witness :
  (exists e w1,
      produced (@check_control_plane_pods nat mixed_cluster 0 fresh_world)
      = [mkEntity "unknown" (Some "unknown") Error [str e] None]
      /\ @namespaces_loop nat mixed_cluster 0 critical_namespaces [] fresh_world
         = (Exc e, w1)
      /\ mkWorld 5 [] [] = log_console (control_plane_error_line e) w1)
  \/ (@namespaces_loop nat mixed_cluster 0 critical_namespaces [] fresh_world
      = (Val (produced (@check_control_plane_pods nat mixed_cluster 0
                          fresh_world)),
         mkWorld 5 [] [])
      /\ (forall ns, In ns critical_namespaces ->
            exists e, In e (produced (@check_control_plane_pods nat mixed_cluster
                                        0 fresh_world))
                      /\ namespace e = Some ns)
      /\ (forall e, In e (produced (@check_control_plane_pods nat mixed_cluster 0
                                      fresh_world)) ->
            exists ns, In ns critical_namespaces /\ namespace e = Some ns)
      /\ 5 <= length (produced (@check_control_plane_pods nat mixed_cluster 0
                                  fresh_world))).
Proof.
  apply (@X8_control_plane_result_covers_namespaces nat mixed_cluster 0
           fresh_world (mkWorld 5 [] [])).
  vm_compute. reflexivity.
Defined.

Lemma X9_one_record_per_control_plane_pod_witness :
  (exists records,
      map_raises (control_plane_pod_status "openshift-kube-apiserver")
        (control_plane_pods [running_pod "foo-unrelated";
                             running_pod "kube-apiserver-master-0";
                             running_pod "installer-3-master-0";
                             pending_pod "etcd-master-0"])
      = inr records
      /\ @namespace_step nat busy_cluster 0 [] "openshift-kube-apiserver"
           fresh_world
         = (Val ([] ++ records), mkWorld 1 [] [])
      /\ map name records
         = map pod_name
             (control_plane_pods [running_pod "foo-unrelated";
                                  running_pod "kube-apiserver-master-0";
                                  running_pod "installer-3-master-0";
                                  pending_pod "etcd-master-0"]))
  /\ @namespace_step nat unset_statuses_cluster 0 [] "openshift-kube-apiserver"
       fresh_world
     = (Exc (PyException "'NoneType' object is not iterable"), mkWorld 1 [] []).
Proof.
  split.
  - apply (proj1 (@X9_one_record_per_control_plane_pod nat busy_cluster 0 []
                    "openshift-kube-apiserver" fresh_world (mkWorld 1 [] [])
                    [running_pod "foo-unrelated";
                     running_pod "kube-apiserver-master-0";
                     running_pod "installer-3-master-0";
                     pending_pod "etcd-master-0"]
                    eq_refl
                    (ex_intro _ (running_pod "kube-apiserver-master-0")
                       (conj (or_intror (or_introl eq_refl)) eq_refl)))).
    intros pod [<- | [<- | []]]; simpl; discriminate.
  - apply (proj2 (@X9_one_record_per_control_plane_pod nat unset_statuses_cluster
                    0 [] "openshift-kube-apiserver" fresh_world (mkWorld 1 [] [])
                    [running_pod_without_containers "kube-apiserver-master-0"]
                    eq_refl
                    (ex_intro _
                       (running_pod_without_containers "kube-apiserver-master-0")
                       (conj (or_introl eq_refl) eq_refl)))
             [] (running_pod_without_containers "kube-apiserver-master-0") []
             none_not_iterable).
    + reflexivity.
    + intros p [].
    + reflexivity.
Defined.
(* ================================================================= *)
(** ** The generic fetcher: what a retry returns *)

Section RetryFacts.
Context {St Item : Type}.
Variable api_call : Kwargs -> St -> (Exn + Page Item) * St.

(** X10: when the first request of a fetch fails once or twice, the
    console takes the warning of each failure, and the pages are then
    served without failure, [_get_paginated_response] returns the
    concatenation of all pages; it has printed one warning per failure,
    naming the cause and the attempt, and slept one time unit after each.
    Nothing is lost, because the failed first request leaves no
    continuation token behind. *)
Theorem X10_first_request_failures_recovered
    (fuel : nat) (kwargs : Kwargs) (w : World St) (errs : list Exn)
    (s1 s_end : St) (pages : list (Page Item)) :
  first_request_fails api_call (kw_continue kwargs) (server w) errs s1 ->
  length errs < 3 ->
  prints w (attempt_warnings 0 errs) ->
  response_pages_served api_call kwargs s1 pages s_end ->
  length pages <= S fuel ->
  _get_paginated_response api_call fuel kwargs w
  = (Val (all_items pages),
     Build_World s_end (console w ++ attempt_warnings 0 errs)
       (slept w ++ repeat 1 (length errs)) (markup_error w)).
Proof.
  intros Hfails Hlen Hprints Hserved Hfuel.
  unfold _get_paginated_response, max_retries.
  destruct (retry_loop_first_failures api_call errs 3 fuel 0 None kwargs w s1
              pages s_end Hfails Hlen Hlen Hprints Hserved Hfuel)
    as [kwargs' Hrun].
  now rewrite Hrun.
Qed.

(** X11: when a fetch has received its first pages and a continuation
    request then raises, and the console takes the warning, the next
    attempt starts from the continuation token of the failed request: if
    the server serves the pages from there on, [_get_paginated_response]
    returns the items of those pages only, after one warning and one
    sleep. The pages received before the failure are not part of the
    result. *)
Theorem X11_retry_resumes_at_failed_page
    (fuel : nat) (kwargs : Kwargs) (w : World St) (first : Page Item)
    (rest later : list (Page Item)) (e : Exn) (s1 s_f s_end : St) :
  api_call (mkKwargs (Some 50) (kw_continue kwargs)) (server w) = (inr first, s1) ->
  response_pages_then_fail api_call first s1 rest e s_f ->
  length rest < fuel ->
  markup_error w (attempt_warning 0 e) = None ->
  response_pages_served api_call
    (mkKwargs (Some 50) (metadata_continue (last_page first rest))) s_f later s_end ->
  length later <= S fuel ->
  _get_paginated_response api_call fuel kwargs w
  = (Val (all_items later),
     Build_World s_end (console w ++ [attempt_warning 0 e]) (slept w ++ [1])
       (markup_error w)).
Proof.
  intros Hfirst Hfail Hfuel Hok Hlater Hfuel'.
  assert (Hatt : response_attempt api_call fuel kwargs w
                 = (Exc e,
                    mkKwargs (Some 50) (metadata_continue (last_page first rest)),
                    with_server s_f w)).
  { apply response_attempt_fails. right. now exists first, s1, rest. }
  unfold _get_paginated_response, max_retries.
  rewrite (retry_loop_failed_attempt api_call 2 fuel 0 None _ _ _ _ _
             ltac:(lia) Hatt Hok).
  destruct (retry_loop_first_failures api_call [] 2 fuel (0 + 1) (Some e)
              (mkKwargs (Some 50) (metadata_continue (last_page first rest)))
              (log_sleep 1 (log_console (attempt_warning 0 e) (with_server s_f w)))
              s_f later s_end)
    as [kwargs' Hrun];
    [reflexivity | cbn; lia | cbn; lia | constructor | exact Hlater
    | exact Hfuel' |].
  rewrite Hrun.
  cbn [console slept markup_error log_sleep log_console with_server
       attempt_warnings length repeat].
  rewrite !app_nil_r. reflexivity.
Qed.

(** X21: the warning of a failed attempt is printed before anything else
    happens in the [except] block. When the console refuses the line, the
    [MarkupError] of the print leaves [_get_paginated_response] at once:
    the request is not made again, nothing is printed and nothing is
    slept, even though attempts are left. *)
Theorem X21_unprintable_warning_ends_the_fetch
    (fuel : nat) (kwargs : Kwargs) (w : World St) (e : Exn)
    (tok : option string) (s' : St) (err : string) :
  attempt_fails api_call fuel kwargs (server w) e tok s' ->
  markup_error w (attempt_warning 0 e) = Some err ->
  _get_paginated_response api_call fuel kwargs w
  = (Exc (PyException err), with_server s' w).
Proof.
  intros Hfails Hbad.
  unfold _get_paginated_response, max_retries.
  now rewrite (retry_loop_unprintable api_call 2 fuel 0 None _ _ _ _ _ err
                 ltac:(lia) (response_attempt_fails _ _ _ _ _ _ _ Hfails) Hbad).
Qed.
End RetryFacts.

Lemma X10_first_request_failures_recovered_witness :
  _get_paginated_response
    (fun kwargs n =>
       if (n <? 2)%nat then (inl (ApiException "connection refused"), S n)
       else steady_two_pages kwargs n)
    1 (mkKwargs None None) fresh_world
  = (Val ["pod-1"; "pod-2"; "pod-3"; "pod-4"],
     mkWorld 4
       ["[yellow]Warning: API call failed, attempt 1 of 3... (connection refused)[/yellow]";
        "[yellow]Warning: API call failed, attempt 2 of 3... (connection refused)[/yellow]"]
       [1; 1]).
Proof.
  apply (X10_first_request_failures_recovered
           (fun kwargs n =>
              if (n <? 2)%nat then (inl (ApiException "connection refused"), S n)
              else steady_two_pages kwargs n)
           1 (mkKwargs None None) fresh_world
           [ApiException "connection refused"; ApiException "connection refused"]
           2 4
           [mkPage ["pod-1"; "pod-2"] (Some "page-2");
            mkPage ["pod-3"; "pod-4"] None]).
  - simpl. eexists. split; [reflexivity|]. eexists. split; reflexivity.
  - simpl. lia.
  - repeat constructor.
  - simpl. eexists. split; [reflexivity|]. split; [reflexivity|].
    eexists. split; [reflexivity|]. split; reflexivity.
  - simpl. lia.
Defined.

Lemma X11_retry_resumes_at_failed_page_witness :
  _get_paginated_response flaky_second_page 1 (mkKwargs None None) fresh_world
  = (Val ["pod-3"; "pod-4"],
     mkWorld 3
       ["[yellow]Warning: API call failed, attempt 1 of 3... (connection reset)[/yellow]"]
       [1]).
Proof.
  apply (X11_retry_resumes_at_failed_page flaky_second_page 1
           (mkKwargs None None) fresh_world
           (mkPage ["pod-1"; "pod-2"] (Some "page-2")) []
           [mkPage ["pod-3"; "pod-4"] None]
           (ApiException "connection reset") 1 2 3).
  - reflexivity.
  - split; reflexivity.
  - simpl. lia.
  - reflexivity.
  - simpl. eexists. split; [reflexivity|]. split; reflexivity.
  - simpl. lia.
Defined.

Lemma X21_unprintable_warning_ends_the_fetch_witness :
  _get_paginated_response
    (fun (_ : Kwargs) (n : nat) =>
       (inl (ApiException "body: [/b]") : Exn + Page string, S n))
    1 (mkKwargs None None) fresh_world
  = (Exc (PyException
            "closing tag '[/b]' at position 59 doesn't match any open tag"),
     mkWorld 1 [] []).
Proof.
  apply (X21_unprintable_warning_ends_the_fetch
           (fun (_ : Kwargs) (n : nat) =>
              (inl (ApiException "body: [/b]") : Exn + Page string, S n))
           1 (mkKwargs None None) fresh_world (ApiException "body: [/b]")
           None 1).
  - left. split; reflexivity.
  - reflexivity.
Defined.

(* ================================================================= *)
(** ** The API server probe *)

Lemma dict_get_set {V : Type} (k k' : string) (v : V) (d : list (string * V)) :
  dict_get k (dict_set k' v d) = if k' =? k then Some v else dict_get k d.
Proof.
  induction d as [|[k0 v0] d IH]; simpl.
  - reflexivity.
  - destruct (k0 =? k') eqn:H0; simpl.
    + apply String.eqb_eq in H0. subst k0.
      destruct (k' =? k); reflexivity.
    + rewrite IH. destruct (k' =? k) eqn:H1; [|reflexivity].
      apply String.eqb_eq in H1. subst k'. now rewrite H0.
Qed.

Lemma dict_set_keys {V : Type} (k : string) (v : V) (d : list (string * V)) :
  NoDup (map fst d) ->
  NoDup (map fst (dict_set k v d))
  /\ forall k', In k' (map fst (dict_set k v d)) <-> k' = k \/ In k' (map fst d).
Proof.
  induction d as [|[k0 v0] d IH]; intros Hnd; simpl.
  - split; [repeat constructor; intros [] |].
    intros k'. split; intros [Hk | []]; subst; auto.
  - simpl in Hnd. inversion Hnd as [|? ? Hnotin Hnd']; subst.
    destruct (IH Hnd') as [IHnd IHin].
    destruct (k0 =? k) eqn:H0; simpl.
    + apply String.eqb_eq in H0. subst k0. split; [exact Hnd|].
      intros k'. split; intros Hk; intuition (subst; auto).
    + apply String.eqb_neq in H0. split.
      * constructor; [|exact IHnd]. rewrite IHin. intros [Hk | Hin]; congruence.
      * intros k'. rewrite IHin. split; intros Hk; intuition (subst; auto).
Qed.

Lemma find_app {A : Type} (f : A -> bool) (l1 l2 : list A) :
  find f (l1 ++ l2) = match find f l1 with
                      | Some a => Some a
                      | None => find f l2
                      end.
Proof.
  induction l1 as [|a l1 IH]; simpl; [reflexivity|].
  destruct (f a); [reflexivity | exact IH].
Qed.

Lemma api_pod_record_ready (pod : DynPod) :
  rec_ready (api_pod_record pod) = first_container_ready pod.
Proof.
  unfold api_pod_record, first_container_ready.
  destruct (dyn_container_statuses pod) as [[|first rest]|]; reflexivity.
Qed.

(** The loop over the API server pods, field by field. *)
Lemma api_server_fold (pods : list DynPod) :
  forall st,
    NoDup (map fst (pod_status_dict st)) ->
    let st' := fold_left api_server_step pods st in
    healthy_servers st'
    = healthy_servers st + length (filter first_container_ready pods)
    /\ total_servers st' = total_servers st
    /\ endpoint_healthy st' = endpoint_healthy st
    /\ NoDup (map fst (pod_status_dict st'))
    /\ (forall k,
          dict_get k (pod_status_dict st')
          = match last_pod_named k pods with
            | Some pod => Some (api_pod_record pod)
            | None => dict_get k (pod_status_dict st)
            end)
    /\ (forall k,
          In k (map fst (pod_status_dict st'))
          <-> In k (map dyn_name pods) \/ In k (map fst (pod_status_dict st))).
Proof.
  induction pods as [|pod pods IH]; intros st Hnd; cbn zeta.
  - simpl. rewrite Nat.add_0_r. repeat split; try assumption; tauto.
  - cbn [fold_left].
    assert (Hstep :
      healthy_servers (api_server_step st pod)
      = healthy_servers st + (if first_container_ready pod then 1 else 0)
      /\ total_servers (api_server_step st pod) = total_servers st
      /\ endpoint_healthy (api_server_step st pod) = endpoint_healthy st
      /\ pod_status_dict (api_server_step st pod)
         = dict_set (dyn_name pod) (api_pod_record pod) (pod_status_dict st)).
    { unfold api_server_step. rewrite api_pod_record_ready.
      destruct (first_container_ready pod); cbn;
        rewrite ?Nat.add_0_r; repeat split. }
    destruct Hstep as [Hh [Ht [He Hd]]].
    destruct (dict_set_keys (dyn_name pod) (api_pod_record pod)
                (pod_status_dict st) Hnd) as [Hnd' Hkeys].
    rewrite <- Hd in Hnd', Hkeys.
    destruct (IH (api_server_step st pod) Hnd')
      as [IHh [IHt [IHe [IHnd [IHget IHin]]]]].
    cbn zeta in *.
    rewrite IHh, IHt, IHe, Hh, Ht, He.
    split; [|split; [reflexivity|split; [reflexivity|split; [exact IHnd|split]]]].
    + cbn [filter]. destruct (first_container_ready pod); cbn [length]; lia.
    + intros k. rewrite IHget. unfold last_pod_named. cbn [rev].
      rewrite find_app. destruct (find _ (rev pods)); [reflexivity|].
      rewrite Hd, dict_get_set. cbn [find].
      destruct (dyn_name pod =? k); reflexivity.
    + intros k. rewrite IHin, Hkeys. cbn [map In].
      split; intros Hk; intuition (subst; auto).
Qed.

Section ApiServerFacts.
Context {St : Type} `{Environment St}.

Lemma check_api_endpoint_run (w : World St) (answer : Exn + nat) (s2 : St) :
  requests_get "https://api.cluster.com:6443/healthz" (server w) = (answer, s2) ->
  _check_api_endpoint w = (Val (endpoint_verdict answer), with_server s2 w).
Proof.
  intros Hreq. unfold _check_api_endpoint, try_except, bind, call.
  rewrite Hreq. destruct answer; reflexivity.
Qed.

(** X12: when the pod query succeeds, the API server probe reports as
    total the number of pods listed and as healthy the number of pods
    whose first container status says ready; a pod without container
    statuses counts as not ready, and healthy never exceeds total. *)
Theorem X12_api_server_counts (w : World St) (pods : list DynPod) (s1 : St) :
  pods_get "openshift-kube-apiserver" "app=openshift-kube-apiserver" (server w)
  = (inr pods, s1) ->
  exists api_status w',
    check_api_server_health w = (Val (ApiHealth api_status), w')
    /\ total_servers api_status = length pods
    /\ healthy_servers api_status = length (filter first_container_ready pods)
    /\ healthy_servers api_status <= total_servers api_status.
Proof.
  intros Hget.
  destruct (requests_get "https://api.cluster.com:6443/healthz" s1)
    as [answer s2] eqn:Hreq.
  destruct (api_server_fold pods (mkApiStatus 0 (length pods) [] None))
    as [Hh [Ht _]]; [constructor|].
  cbn zeta in *. cbn [healthy_servers total_servers] in Hh, Ht.
  unfold check_api_server_health, try_except, bind, call at 1.
  rewrite Hget.
  rewrite (check_api_endpoint_run (with_server s1 w) answer s2 Hreq).
  eexists. eexists. split; [reflexivity|].
  cbn [healthy_servers total_servers]. rewrite Hh, Ht.
  repeat split. apply filter_length_le.
Qed.

(** X13: when the pod query succeeds, whatever happens to the endpoint
    request, the API server probe returns its status dict, not an error:
    [endpoint_healthy] is true exactly when the request was answered with
    status 200, an exception of the request counts as false, nothing is
    printed, and the fields derived from the pods are those of the pod
    loop alone. *)
Theorem X13_api_endpoint_outcome_is_a_field (w : World St) (pods : list DynPod)
    (s1 s2 : St) (answer : Exn + nat) :
  pods_get "openshift-kube-apiserver" "app=openshift-kube-apiserver" (server w)
  = (inr pods, s1) ->
  requests_get "https://api.cluster.com:6443/healthz" s1 = (answer, s2) ->
  let counted :=
    fold_left api_server_step pods (mkApiStatus 0 (length pods) [] None) in
  check_api_server_health w
  = (Val (ApiHealth (mkApiStatus (healthy_servers counted) (total_servers counted)
                       (pod_status_dict counted)
                       (Some (endpoint_verdict answer)))),
     with_server s2 w).
Proof.
  intros Hget Hreq. cbn zeta.
  unfold check_api_server_health, try_except, bind, call at 1.
  rewrite Hget.
  rewrite (check_api_endpoint_run (with_server s1 w) answer s2 Hreq).
  reflexivity.
Qed.

(** X14: when the pod query succeeds, the ['pod_status'] dict of the
    result has exactly the names of the listed pods as keys, each once,
    and looking a name up gives the record of the last listed pod with
    that name. *)
Theorem X14_api_pod_status_lookup (w : World St) (pods : list DynPod) (s1 : St) :
  pods_get "openshift-kube-apiserver" "app=openshift-kube-apiserver" (server w)
  = (inr pods, s1) ->
  exists api_status w',
    check_api_server_health w = (Val (ApiHealth api_status), w')
    /\ NoDup (map fst (pod_status_dict api_status))
    /\ (forall k, In k (map fst (pod_status_dict api_status))
                  <-> In k (map dyn_name pods))
    /\ (forall k, dict_get k (pod_status_dict api_status)
                  = option_map api_pod_record (last_pod_named k pods)).
Proof.
  intros Hget.
  destruct (requests_get "https://api.cluster.com:6443/healthz" s1)
    as [answer s2] eqn:Hreq.
  destruct (api_server_fold pods (mkApiStatus 0 (length pods) [] None))
    as [_ [_ [_ [Hnd [Hlookup Hkeys]]]]]; [constructor|].
  cbn zeta in *. cbn [pod_status_dict] in Hlookup, Hkeys.
  unfold check_api_server_health, try_except, bind, call at 1.
  rewrite Hget.
  rewrite (check_api_endpoint_run (with_server s1 w) answer s2 Hreq).
  eexists. eexists. split; [reflexivity|].
  cbn [pod_status_dict]. split; [exact Hnd|]. split.
  - intros k. rewrite Hkeys. cbn. tauto.
  - intros k. rewrite Hlookup. now destruct (last_pod_named k pods).
Qed.
End ApiServerFacts.

Lemma X12_api_server_counts_witness :
  exists api_status w',
    @check_api_server_health nat timeout_environment fresh_world
    = (Val (ApiHealth api_status), w')
    /\ total_servers api_status = length api_server_pods
    /\ healthy_servers api_status
       = length (filter first_container_ready api_server_pods)
    /\ healthy_servers api_status <= total_servers api_status.
Proof.
  apply (@X12_api_server_counts nat timeout_environment fresh_world
           api_server_pods 1).
  reflexivity.
Defined.

Lemma X13_api_endpoint_outcome_is_a_field_witness :
  @check_api_server_health nat timeout_environment fresh_world
  = (Val (ApiHealth
            (mkApiStatus 1 3
               [("kube-apiserver-master-0", mkPodRecord false 7 "Running");
                ("kube-apiserver-master-1", mkPodRecord false 0 "Pending")]
               (Some false))),
     mkWorld 2 [] []).
Proof.
  apply (@X13_api_endpoint_outcome_is_a_field nat timeout_environment
           fresh_world api_server_pods 1 2
           (inl (PyException "HTTPSConnectionPool: read timed out"))).
  - reflexivity.
  - reflexivity.
Defined.

Lemma X14_api_pod_status_lookup_witness :
  exists api_status w',
    @check_api_server_health nat timeout_environment fresh_world
    = (Val (ApiHealth api_status), w')
    /\ NoDup (map fst (pod_status_dict api_status))
    /\ (forall k, In k (map fst (pod_status_dict api_status))
                  <-> In k (map dyn_name api_server_pods))
    /\ (forall k, dict_get k (pod_status_dict api_status)
                  = option_map api_pod_record (last_pod_named k api_server_pods)).
Proof.
  apply (@X14_api_pod_status_lookup nat timeout_environment fresh_world
           api_server_pods 1).
  reflexivity.
Defined.

(* ================================================================= *)
(** ** The certificate probe *)

Lemma lower_char_idempotent (c : ascii) : lower_char (lower_char c) = lower_char c.
Proof.
  destruct c as [b0 b1 b2 b3 b4 b5 b6 b7];
    destruct b0, b1, b2, b3, b4, b5, b6, b7; reflexivity.
Qed.

Lemma lower_upper_char (c : ascii) : lower_char (upper_char c) = lower_char c.
Proof.
  destruct c as [b0 b1 b2 b3 b4 b5 b6 b7];
    destruct b0, b1, b2, b3, b4, b5, b6, b7; reflexivity.
Qed.

Lemma lower_idempotent (s : string) : lower (lower s) = lower s.
Proof.
  induction s as [|c s IH]; simpl; [reflexivity|].
  now rewrite lower_char_idempotent, IH.
Qed.

Lemma lower_upper (s : string) : lower (upper s) = lower s.
Proof.
  induction s as [|c s IH]; simpl; [reflexivity|].
  now rewrite lower_upper_char, IH.
Qed.

(** X15: the certificate scan flags a value exactly when its lower-cased
    text has "expiring" or "expired" as a substring; so the test does not
    depend on the case of the letters: a value, its upper-cased form and
    its lower-cased form are flagged alike. *)
Theorem X15_certificate_scan_ignores_case (cert_info : string) :
  (cert_flagged cert_info = true
   <-> exists pre post,
         lower cert_info = (pre ++ "expiring" ++ post)%string
         \/ lower cert_info = (pre ++ "expired" ++ post)%string)
  /\ cert_flagged (upper cert_info) = cert_flagged cert_info
  /\ cert_flagged (lower cert_info) = cert_flagged cert_info.
Proof.
  split; [|split].
  - unfold cert_flagged. rewrite orb_true_iff, !contains_iff. split.
    + intros [[pre [post Heq]] | [pre [post Heq]]]; exists pre, post; auto.
    + intros [pre [post [Heq | Heq]]]; [left | right]; now exists pre, post.
  - unfold cert_flagged. now rewrite lower_upper.
  - unfold cert_flagged. now rewrite lower_idempotent.
Qed.

Lemma configmaps_loop_spec (cms : list ConfigMap) :
  forall issues_,
    configmaps_loop cms issues_
    = match map_raises configmap_issues cms with
      | inl e => inl e
      | inr found => inr (issues_ ++ concat found)
      end.
Proof.
  induction cms as [|cm cms IH]; intros issues_; simpl.
  - now rewrite app_nil_r.
  - destruct (configmap_issues cm) as [e|found]; [reflexivity|].
    rewrite IH. destruct (map_raises configmap_issues cms) as [e|more];
      [reflexivity|].
    simpl. now rewrite app_assoc.
Qed.

Lemma configmap_issues_returns (cm : ConfigMap) :
  cm_data cm <> PyNone -> exists found, configmap_issues cm = inr found.
Proof.
  unfold configmap_issues. intros Hdata.
  destruct (cm_data cm); [eexists; reflexivity | now contradiction Hdata
                         | eexists; reflexivity].
Qed.

Lemma configmap_issues_in (cms : list ConfigMap) :
  forall found msg,
    map_raises configmap_issues cms = inr found ->
    (In msg (concat found)
     <-> exists entry,
           certificate_entry cms entry
           /\ cert_flagged (snd entry) = true
           /\ msg = certificate_message entry).
Proof.
  unfold certificate_entry.
  induction cms as [|cm cms IH]; intros found msg Hmap; simpl in Hmap.
  - injection Hmap as <-. simpl. split; [intros [] |].
    intros [entry [[cm [data [[] _]]] _]].
  - destruct (configmap_issues cm) as [e|l] eqn:Hcm; [discriminate|].
    destruct (map_raises configmap_issues cms) as [e|ls]; [discriminate|].
    injection Hmap as <-. simpl. rewrite in_app_iff, (IH ls msg eq_refl).
    assert (Hhere : In msg l
                    <-> exists entry data,
                          cm_data cm = Value data /\ In entry data
                          /\ cert_flagged (snd entry) = true
                          /\ msg = certificate_message entry).
    { unfold configmap_issues in Hcm.
      destruct (cm_data cm) as [| |data]; [| discriminate |].
      - injection Hcm as <-. split; [intros [] |].
        intros [entry [data [Hdata _]]]. discriminate Hdata.
      - injection Hcm as <-. rewrite in_flat_map. split.
        + intros [entry [Hentry Hmsg]].
          destruct (cert_flagged (snd entry)) eqn:Hflag; [|destruct Hmsg].
          destruct Hmsg as [<- | []]. now exists entry, data.
        + intros [entry [data' [Hdata [Hentry [Hflag ->]]]]].
          injection Hdata as <-. exists entry. split; [exact Hentry|].
          rewrite Hflag. now left. }
    rewrite Hhere. split.
    + intros [[entry [data [Hdata [Hentry [Hflag Hmsg]]]]]
             | [entry [[cm' [data [Hcm' [Hdata Hentry]]]] [Hflag Hmsg]]]].
      * exists entry. split; [|now split]. exists cm, data.
        split; [now left | now split].
      * exists entry. split; [|now split]. exists cm', data.
        split; [now right | now split].
    + intros [entry [[cm' [data [[<- | Hcm'] [Hdata Hentry]]]] [Hflag Hmsg]]].
      * left. now exists entry, data.
      * right. exists entry. split; [|now split]. now exists cm', data.
Qed.

Section CertificateFacts.
Context {St : Type} `{Environment St}.

(** X16: when the config map query returns a list of config maps, then
    (1) if [data] is [None] for none of them, the certificate probe
    returns Healthy if no key/value pair of any config map is flagged, in
    particular when the list is empty; otherwise it returns Warning, and
    its issues are exactly the messages "Certificate <name> is <value>" of
    the flagged pairs; (2) if [data] is [None] for one of them,
    [cm.data.items()] raises and the probe returns Error with the text of
    the [AttributeError], whatever was flagged before. In both cases it
    prints nothing, and the verdict is never Unhealthy. *)
Theorem X16_certificate_verdict (w : World St) (cms : list ConfigMap) (s1 : St) :
  configmaps_get "openshift-config-managed"
    "config.openshift.io/component=Certificates" (server w)
  = (inr (Some cms), s1) ->
  ((forall cm, In cm cms -> cm_data cm <> PyNone) ->
   exists verdict,
     check_certificates w = (Val verdict, with_server s1 w)
     /\ ((forall entry, certificate_entry cms entry ->
            cert_flagged (snd entry) = false) ->
         verdict = mkAggregate Healthy None None
                     (Some "All certificates are valid"))
     /\ ((exists entry, certificate_entry cms entry
                        /\ cert_flagged (snd entry) = true) ->
         exists issues_,
           verdict = mkAggregate Warning None (Some issues_) None
           /\ forall msg,
                In msg issues_
                <-> exists entry,
                      certificate_entry cms entry
                      /\ cert_flagged (snd entry) = true
                      /\ msg = certificate_message entry))
  /\ ((exists cm, In cm cms /\ cm_data cm = PyNone) ->
      check_certificates w
      = (Val (mkAggregate Error
                (Some "'NoneType' object has no attribute 'items'") None None),
         with_server s1 w)).
Proof.
  intros Hget.
  unfold check_certificates, try_except, bind, call. rewrite Hget.
  rewrite configmaps_loop_spec. split.
  - intros Hdata.
    destruct (map_raises_total configmap_issues cms) as [found Hfound];
      [intros cm Hin; now apply configmap_issues_returns, Hdata|].
    rewrite Hfound. unfold lift_raises, ret. cbn [app].
    pose proof (fun msg => configmap_issues_in cms found msg Hfound) as Hin.
    destruct (is_empty (concat found)) eqn:Hissues; simpl.
    + apply is_empty_true in Hissues. eexists. split; [reflexivity|]. split.
      * reflexivity.
      * intros [entry [Hentry Hflag]]. exfalso.
        assert (Hmsg : In (certificate_message entry) (concat found))
          by (apply Hin; now exists entry).
        rewrite Hissues in Hmsg. destruct Hmsg.
    + apply is_empty_false in Hissues. eexists. split; [reflexivity|]. split.
      * intros Hnone. exfalso.
        destruct (concat found) as [|msg rest] eqn:Hflat; [now apply Hissues|].
        destruct (proj1 (Hin msg) (or_introl eq_refl))
          as [entry [Hentry [Hflag _]]].
        rewrite (Hnone entry Hentry) in Hflag. discriminate Hflag.
      * intros _. exists (concat found). split; [reflexivity | exact Hin].
  - intros [cm [Hin Hnone]].
    assert (Hmap : map_raises configmap_issues cms
                   = inl (none_has_no_attribute "items")).
    { clear Hget. induction cms as [|c cms IH]; [destruct Hin|].
      simpl. unfold configmap_issues at 1.
      destruct Hin as [-> | Hin].
      - now rewrite Hnone.
      - destruct (cm_data c); [|reflexivity|]; now rewrite (IH Hin). }
    rewrite Hmap. reflexivity.
Qed.
End CertificateFacts.

Lemma X16_certificate_verdict_witness :
  (exists verdict,
      @check_certificates nat timeout_environment fresh_world
      = (Val verdict, mkWorld 1 [] [])
      /\ ((forall entry, certificate_entry certificate_configmaps entry ->
             cert_flagged (snd entry) = false) ->
          verdict = mkAggregate Healthy None None
                      (Some "All certificates are valid"))
      /\ ((exists entry, certificate_entry certificate_configmaps entry
                         /\ cert_flagged (snd entry) = true) ->
          exists issues_,
            verdict = mkAggregate Warning None (Some issues_) None
            /\ forall msg,
                 In msg issues_
                 <-> exists entry,
                       certificate_entry certificate_configmaps entry
                       /\ cert_flagged (snd entry) = true
                       /\ msg = certificate_message entry))
  /\ @check_certificates nat
       (scripted_environment (inr []) (inr 200)
          (inr (Some configmaps_with_unset_data)))
       fresh_world
     = (Val (mkAggregate Error
               (Some "'NoneType' object has no attribute 'items'") None None),
        mkWorld 1 [] []).
Proof.
  split.
  - apply (proj1 (@X16_certificate_verdict nat timeout_environment fresh_world
                    certificate_configmaps 1 eq_refl)).
    intros cm [<- | [<- | [<- | []]]]; discriminate.
  - apply (proj2 (@X16_certificate_verdict nat
                    (scripted_environment (inr []) (inr 200)
                       (inr (Some configmaps_with_unset_data)))
                    fresh_world configmaps_with_unset_data 1 eq_refl)).
    exists (mkConfigMap PyNone). split; [right; now left | reflexivity].
Defined.
(* ================================================================= *)
(** ** What can leave a probe *)

(** A probe whose handler prints its error line and returns: the only
    exception that leaves it is the [MarkupError] of that print, raised
    for the exception the [try] block ended with. *)
Lemma probe_raises_only_markup {St A : Type} (body : M St A)
    (line : Exn -> string) (result : Exn -> A) (w w' : World St) (x : Exn) :
  try_except body (fun e => console_print_markup (line e) ;; ret (result e)) w
  = (Exc x, w') ->
  exists e err,
    body w = (Exc e, w')
    /\ markup_error w' (line e) = Some err
    /\ x = PyException err.
Proof.
  unfold try_except, bind, console_print_markup, ret.
  destruct (body w) as [[a|e|] w1]; try discriminate.
  destruct (markup_error w1 (line e)) as [err|] eqn:Hm; [|discriminate].
  intros [= <- <-]. now exists e, err.
Qed.

Section WhatLeavesAProbe.
Context {St : Type} `{Cluster St} `{Environment St}.

(** X17: the Master Nodes probe raises exactly when the node query raises
    an exception whose error line the console refuses; what leaves the
    probe then is the [MarkupError] of the print, after that one call and
    with nothing printed. In the same way the only exception that leaves
    the Critical Operators, etcd, Control-Plane Pods and API server probes
    is the [MarkupError] the console raises for the probe's own error
    line. The certificate probe and the endpoint check, whose handlers
    print nothing, raise in no run. *)
Theorem X17_what_leaves_a_probe (fuel : nat) (w w' : World St) (x : Exn) :
  (check_master_nodes w = (Exc x, w')
   <-> exists e err s',
         nodes_get "node-role.kubernetes.io/master" (server w) = (inl e, s')
         /\ markup_error w (master_nodes_error_line e) = Some err
         /\ x = PyException err
         /\ w' = with_server s' w)
  /\ (check_critical_operators w = (Exc x, w') ->
      exists e err,
        markup_error w' (operators_error_line e) = Some err
        /\ x = PyException err)
  /\ (check_etcd_health fuel w = (Exc x, w') ->
      exists e err,
        markup_error w' (etcd_error_line e) = Some err /\ x = PyException err)
  /\ (check_control_plane_pods fuel w = (Exc x, w') ->
      exists e err,
        markup_error w' (control_plane_error_line e) = Some err
        /\ x = PyException err)
  /\ (check_api_server_health w = (Exc x, w') ->
      exists e err,
        markup_error w' (api_server_error_line e) = Some err
        /\ x = PyException err)
  /\ check_certificates w <> (Exc x, w')
  /\ _check_api_endpoint w <> (Exc x, w').
Proof.
  split; [|split; [|split; [|split; [|split; [|split]]]]].
  - split.
    + intros Hrun. unfold check_master_nodes in Hrun.
      apply (probe_raises_only_markup _ master_nodes_error_line
               (fun e => [mkEntity "unknown" None Error [str e] (Some [])]))
        in Hrun.
      destruct Hrun as [e [err [Hbody [Hm ->]]]].
      unfold bind, call in Hbody.
      destruct (nodes_get _ (server w)) as [[e0|nodes] s] eqn:Hget.
      * injection Hbody as <- <-. now exists e0, err, s.
      * destruct (is_empty (map master_node_status nodes)); discriminate Hbody.
    + intros [e [err [s' [Hget [Hm [-> ->]]]]]].
      unfold check_master_nodes, try_except, bind, call.
      rewrite Hget. unfold console_print_markup.
      change (markup_error (with_server s' w)) with (markup_error w).
      unfold master_nodes_error_line in Hm. now rewrite Hm.
  - intros Hrun. unfold check_critical_operators in Hrun.
    apply (probe_raises_only_markup _ operators_error_line
             (fun e => [mkEntity "unknown" None Error [str e] None])) in Hrun.
    destruct Hrun as [e [err [_ [Hm ->]]]]. now exists e, err.
  - intros Hrun. unfold check_etcd_health in Hrun.
    apply (probe_raises_only_markup _ etcd_error_line
             (fun e => mkAggregate Error (Some (str e)) None None)) in Hrun.
    destruct Hrun as [e [err [_ [Hm ->]]]]. now exists e, err.
  - intros Hrun. unfold check_control_plane_pods in Hrun.
    apply (probe_raises_only_markup _ control_plane_error_line
             (fun e => [mkEntity "unknown" (Some "unknown") Error [str e] None]))
      in Hrun.
    destruct Hrun as [e [err [_ [Hm ->]]]]. now exists e, err.
  - intros Hrun. unfold check_api_server_health in Hrun.
    apply (probe_raises_only_markup _ api_server_error_line
             (fun e => ApiHealthError (str e))) in Hrun.
    destruct Hrun as [e [err [_ [Hm ->]]]]. now exists e, err.
  - unfold check_certificates, try_except, ret.
    match goal with
    | |- context [match ?body w with _ => _ end] =>
        destruct (body w) as [[a|e|] w1]
    end; discriminate.
  - unfold _check_api_endpoint, try_except, ret.
    match goal with
    | |- context [match ?body w with _ => _ end] =>
        destruct (body w) as [[a|e|] w1]
    end; discriminate.
Qed.
End WhatLeavesAProbe.
